(** * The Global Entry appointment bot ([main.py]), embedded in Rocq

    The program polls a scheduler service for open interview slots at a
    fixed list of locations, then scans the directory of US locations
    for the ones close to a home zip code, and announces the first open
    slot it finds (on the console in test mode, through the posting
    service otherwise).

    The embedding follows [main.py] function by function.  Python values
    decoded from JSON are a small inductive type, exceptions are an
    error type, and the effects of the program (network reads, the
    clock, the posting call, [print] and [logging]) are threaded through
    a state-and-trace monad over an arbitrary network.

    Library behaviour is that of Python 3 in the C locale: an ordering
    comparison of a number with a value of another type raises
    [TypeError], [strptime] matches the pattern its format compiles to,
    and [strftime] writes English names and zero-padded fields. *)

From Stdlib Require Import ZArith QArith String Ascii List Lia.
From stdpp Require Import gmap strings list fin_maps.

Set Warnings "-register-all".

Local Open Scope string_scope.
Local Open Scope list_scope.
Local Open Scope Z_scope.

(** ** Python values

    What [requests.get(url).json()] can return, and what the functions
    of the program pass around.  A JSON number is kept as its exact
    rational value: the program only compares numbers and tests them
    against zero, and Python compares an [int] with a [float] exactly.
    Strings are byte strings (the ASCII range of Python's [str]). *)

Inductive value :=
| VNone
| VBool (b : bool)
| VNum (q : Q)
| VStr (s : string)
| VList (l : list value)
| VDict (d : gmap string value).

Definition VInt (z : Z) : value := VNum (inject_Z z).

(** The exceptions the program can meet.  [ConnectionError] is
    [requests.ConnectionError], [TwitterError] carries [e.message], and
    [SystemExit] is what [sys.exit] raises. *)

Inductive exn :=
| KeyError
| TypeError
| ValueError
| IndexError
| OverflowError
| ConnectionError
| TwitterError (message : value)
| SystemExit (code : Z)
| UnboundLocalError
| OtherError (name : string).

Inductive result (A : Type) :=
| Ok (a : A)
| Raise (e : exn).

Arguments Ok {A} a.
Arguments Raise {A} e.

#[global] Instance result_ret : MRet result := @Ok.
#[global] Instance result_bind : MBind result := fun A B f r =>
  match r with
  | Ok a => f a
  | Raise e => Raise e
  end.

(** *** Truth value, comparison, subscription *)

Definition Qlt_bool (x y : Q) : bool := negb (Qle_bool y x).

(** [bool(v)] *)
Definition truthy (v : value) : bool :=
  match v with
  | VNone => false
  | VBool b => b
  | VNum q => negb (Qeq_bool q 0)
  | VStr s => match s with EmptyString => false | String _ _ => true end
  | VList l => match l with [] => false | _ :: _ => true end
  | VDict d => match map_to_list d with [] => false | _ :: _ => true end
  end.

(** A value as a number in an ordering comparison with an [int]: [bool]
    is a subclass of [int]; any other type against an [int] is a
    [TypeError] (Python 3). *)
Definition as_number (v : value) : result Q :=
  match v with
  | VBool b => Ok (if b then 1%Q else 0%Q)
  | VNum q => Ok q
  | _ => Raise TypeError
  end.

(** [v < n] and [v > n] for an [int] [n] *)
Definition lt_int (v : value) (n : Z) : result bool :=
  q ← as_number v; Ok (Qlt_bool q (inject_Z n)).

Definition gt_int (v : value) (n : Z) : result bool :=
  q ← as_number v; Ok (Qlt_bool (inject_Z n) q).

(** [v == s] for a [str] [s], and [v == n] for an [int] [n]; equality
    never raises. *)
Definition eq_str (v : value) (s : string) : bool :=
  match v with
  | VStr s' => String.eqb s' s
  | _ => false
  end.

Definition eq_int (v : value) (n : Z) : bool :=
  match v with
  | VBool b => Qeq_bool (if b then 1%Q else 0%Q) (inject_Z n)
  | VNum q => Qeq_bool q (inject_Z n)
  | _ => false
  end.

(** [v[k]] for a [str] key [k] *)
Definition getitem (v : value) (k : string) : result value :=
  match v with
  | VDict d => match d !! k with
               | Some x => Ok x
               | None => Raise KeyError
               end
  | _ => Raise TypeError
  end.

(** [v[0]]; the keys of a decoded JSON object are strings, so [0] is
    never one of them. *)
Definition getitem0 (v : value) : result value :=
  match v with
  | VList l => match l with
               | x :: _ => Ok x
               | [] => Raise IndexError
               end
  | VStr s => match s with
              | String c _ => Ok (VStr (String c EmptyString))
              | EmptyString => Raise IndexError
              end
  | VDict _ => Raise KeyError
  | _ => Raise TypeError
  end.

(** [len(v)] *)
Definition len (v : value) : result nat :=
  match v with
  | VStr s => Ok (String.length s)
  | VList l => Ok (length l)
  | VDict d => Ok (size d)
  | _ => Raise TypeError
  end.

Fixpoint string_take (n : nat) (s : string) : string :=
  match n, s with
  | S n', String c s' => String c (string_take n' s')
  | _, _ => EmptyString
  end.

(** [v[:n]]; slicing an object with string keys is a [TypeError] too
    (a slice is not hashable). *)
Definition slice_to (n : nat) (v : value) : result value :=
  match v with
  | VStr s => Ok (VStr (string_take n s))
  | VList l => Ok (VList (take n l))
  | _ => Raise TypeError
  end.

Fixpoint string_chars (s : string) : list value :=
  match s with
  | EmptyString => []
  | String c s' => VStr (String c EmptyString) :: string_chars s'
  end.

(** [for x in v]: the elements of a list, the characters of a string,
    the keys of an object (in the map's order: every use below fails on
    the first key whatever it is). *)
Definition iter (v : value) : result (list value) :=
  match v with
  | VList l => Ok l
  | VStr s => Ok (string_chars s)
  | VDict d => Ok (VStr <$> (map_to_list d).*1)
  | _ => Raise TypeError
  end.

Fixpoint is_substring (k s : string) : bool :=
  String.prefix k s ||
  match s with
  | EmptyString => false
  | String _ s' => is_substring k s'
  end.

(** [k in v] for a [str] [k]: a key of an object, an element of a list,
    a substring of a string. *)
Definition contains (k : string) (v : value) : result bool :=
  match v with
  | VDict d => Ok (bool_decide (is_Some (d !! k)))
  | VList l => Ok (existsb (fun x => eq_str x k) l)
  | VStr s => Ok (is_substring k s)
  | _ => Raise TypeError
  end.

(** ** Dates and times

    The part of Python's [datetime] the program uses: the proleptic
    Gregorian calendar of [datetime.date] (ordinal 1 is 0001-01-01, a
    Monday), [datetime + timedelta(weeks=...)], [strptime] for
    [TTP_TIME_FORMAT] and [strftime] for both formats (C locale). *)

Record datetime := mk_datetime {
  year : Z; month : Z; day : Z;
  hour : Z; minute : Z; second : Z; microsecond : Z
}.

Definition MINYEAR : Z := 1.
Definition MAXYEAR : Z := 9999.
Definition MAXORDINAL : Z := 3652059.

Definition is_leap (y : Z) : bool :=
  (y mod 4 =? 0) && (negb (y mod 100 =? 0) || (y mod 400 =? 0)).

Definition DAYS_IN_MONTH : list Z :=
  [31; 28; 31; 30; 31; 30; 31; 31; 30; 31; 30; 31].

Definition days_in_month (y m : Z) : Z :=
  if (m =? 2) && is_leap y then 29
  else nth (Z.to_nat (m - 1)) DAYS_IN_MONTH 0.

Definition days_before_year (y : Z) : Z :=
  let y1 := y - 1 in
  y1 * 365 + y1 / 4 - y1 / 100 + y1 / 400.

Definition DAYS_BEFORE_MONTH : list Z :=
  [0; 31; 59; 90; 120; 151; 181; 212; 243; 273; 304; 334].

Definition days_before_month (y m : Z) : Z :=
  nth (Z.to_nat (m - 1)) DAYS_BEFORE_MONTH 0
  + (if (2 <? m) && is_leap y then 1 else 0).

Definition ymd2ord (y m d : Z) : Z :=
  days_before_year y + days_before_month y m + d.

Definition DI400Y : Z := 146097.
Definition DI100Y : Z := 36524.
Definition DI4Y : Z := 1461.

(** [_ord2ymd] of CPython's [datetime]: the date of an ordinal. *)
Definition ord2ymd (n0 : Z) : Z * Z * Z :=
  let n := n0 - 1 in
  let n400 := n / DI400Y in
  let n := n mod DI400Y in
  let n100 := n / DI100Y in
  let n := n mod DI100Y in
  let n4 := n / DI4Y in
  let n := n mod DI4Y in
  let n1 := n / 365 in
  let n := n mod 365 in
  let y := n400 * 400 + 1 + n100 * 100 + n4 * 4 + n1 in
  if (n1 =? 4) || (n100 =? 4) then (y - 1, 12, 31)
  else
    let leapyear := (n1 =? 3) && (negb (n4 =? 24) || (n100 =? 3)) in
    let m := Z.shiftr (n + 50) 5 in
    let preceding :=
      nth (Z.to_nat (m - 1)) DAYS_BEFORE_MONTH 0
      + (if (2 <? m) && leapyear then 1 else 0) in
    if n <? preceding then
      let m' := m - 1 in
      let preceding' :=
        preceding - (nth (Z.to_nat (m' - 1)) DAYS_IN_MONTH 0
                     + (if (m' =? 2) && leapyear then 1 else 0)) in
      (y, m', n - preceding' + 1)
    else (y, m, n - preceding + 1).

Definition toordinal (t : datetime) : Z :=
  ymd2ord (year t) (month t) (day t).

(** [date.weekday()]: Monday is 0. *)
Definition weekday (t : datetime) : Z :=
  (toordinal t + 6) mod 7.

(** [t + timedelta(weeks=w)]: the time of day is kept, the date moves by
    [7 * w] days, and a date past [datetime.max] is an [OverflowError]. *)
Definition add_weeks (t : datetime) (w : Z) : result datetime :=
  let days := toordinal t + 7 * w in
  if (0 <? days) && (days <=? MAXORDINAL) then
    let '(y, m, d) := ord2ymd days in
    Ok (mk_datetime y m d (hour t) (minute t) (second t) (microsecond t))
  else Raise OverflowError.

(** *** Digits *)

Definition is_digit (c : ascii) : bool :=
  let n := nat_of_ascii c in (48 <=? n)%nat && (n <=? 57)%nat.

Definition in_range (lo hi : ascii) (c : ascii) : bool :=
  let n := nat_of_ascii c in
  (nat_of_ascii lo <=? n)%nat && (n <=? nat_of_ascii hi)%nat.

Definition is_char (a : ascii) (c : ascii) : bool := Ascii.eqb a c.

Definition ascii_lower (c : ascii) : ascii :=
  let n := nat_of_ascii c in
  if (65 <=? n)%nat && (n <=? 90)%nat then ascii_of_nat (n + 32) else c.

(** A literal of the format, matched without regard to case. *)
Definition is_char_i (a : ascii) (c : ascii) : bool :=
  Ascii.eqb (ascii_lower a) (ascii_lower c).

Definition digit_value (c : ascii) : Z :=
  Z.of_nat (nat_of_ascii c) - 48.

(** [int(s)] for a field the pattern matched: digits, after an optional
    leading blank. *)
Definition int_of_field (s : list ascii) : Z :=
  fold_left (fun acc c => if is_digit c then acc * 10 + digit_value c else acc) s 0.

Definition digit_char (d : Z) : ascii := ascii_of_nat (Z.to_nat (48 + d)).

(** [n] in decimal, zero-padded to [w] digits (the [w] low digits). *)
Fixpoint zero_padded (w : nat) (n : Z) : string :=
  match w with
  | O => EmptyString
  | S w' => zero_padded w' (n / 10) +:+ String (digit_char (n mod 10)) EmptyString
  end.

(** *** [strptime]

    [_strptime] turns the format into a regular expression and matches
    it (anchored at the start, ignoring case) against the string:
    every directive is a group of alternatives tried in order, with
    backtracking into the group when what follows does not match. *)

Definition cclass := ascii -> bool.

Fixpoint match_chars (cs : list cclass) (s : list ascii)
  : option (list ascii * list ascii) :=
  match cs with
  | [] => Some ([], s)
  | p :: cs' =>
      match s with
      | c :: s' =>
          if p c then
            match match_chars cs' s' with
            | Some (m, rest) => Some (c :: m, rest)
            | None => None
            end
          else None
      | [] => None
      end
  end.

Fixpoint first_some {A B : Type} (f : A -> option B) (l : list A) : option B :=
  match l with
  | [] => None
  | a :: l' => match f a with
               | Some b => Some b
               | None => first_some f l'
               end
  end.

(** A pattern is a sequence of groups; the result is what each group
    matched and the unread rest of the string. *)
Fixpoint match_groups (p : list (list (list cclass))) (s : list ascii)
  : option (list (list ascii) * list ascii) :=
  match p with
  | [] => Some ([], s)
  | alternatives :: p' =>
      first_some
        (fun alt =>
           match match_chars alt s with
           | Some (m, rest) =>
               match match_groups p' rest with
               | Some (ms, r) => Some (m :: ms, r)
               | None => None
               end
           | None => None
           end)
        alternatives
  end.

Definition re_Y : list (list cclass) := [[is_digit; is_digit; is_digit; is_digit]].
Definition re_m : list (list cclass) :=
  [[is_char "1"; in_range "0" "2"]; [is_char "0"; in_range "1" "9"]; [in_range "1" "9"]].
Definition re_d : list (list cclass) :=
  [[is_char "3"; in_range "0" "1"]; [in_range "1" "2"; is_digit];
   [is_char "0"; in_range "1" "9"]; [in_range "1" "9"]; [is_char " "; in_range "1" "9"]].
Definition re_H : list (list cclass) :=
  [[is_char "2"; in_range "0" "3"]; [in_range "0" "1"; is_digit]; [is_digit]].
Definition re_M : list (list cclass) :=
  [[in_range "0" "5"; is_digit]; [is_digit]].
Definition re_lit (a : ascii) : list (list cclass) := [[is_char_i a]].

(** The pattern of ['%Y-%m-%dT%H:%M']. *)
Definition TTP_TIME_PATTERN : list (list (list cclass)) :=
  [re_Y; re_lit "-"; re_m; re_lit "-"; re_d; re_lit "T"; re_H; re_lit ":"; re_M].

(** [datetime.strptime(s, TTP_TIME_FORMAT)]: a [ValueError] when the
    string does not match, when text remains after the match, or when
    the fields are not a date. *)
Definition strptime (s : string) : result datetime :=
  match match_groups TTP_TIME_PATTERN (list_ascii_of_string s) with
  | Some ([fY; _; fm; _; fd; _; fH; _; fM], []) =>
      let y := int_of_field fY in
      let m := int_of_field fm in
      let d := int_of_field fd in
      if (MINYEAR <=? y) && (y <=? MAXYEAR) && (1 <=? d) && (d <=? days_in_month y m)
      then Ok (mk_datetime y m d (int_of_field fH) (int_of_field fM) 0 0)
      else Raise ValueError
  | _ => Raise ValueError
  end.

(** A timestamp is a string; anything else is a [TypeError]. *)
Definition strptime_value (v : value) : result datetime :=
  match v with
  | VStr s => strptime s
  | _ => Raise TypeError
  end.

(** *** [strftime] *)

Definition DAY_NAMES : list string :=
  ["Monday"; "Tuesday"; "Wednesday"; "Thursday"; "Friday"; "Saturday"; "Sunday"].

Definition MONTH_NAMES : list string :=
  ["January"; "February"; "March"; "April"; "May"; "June"; "July";
   "August"; "September"; "October"; "November"; "December"].

(** [t.strftime('%Y-%m-%dT%H:%M')] *)
Definition strftime_ttp (t : datetime) : string :=
  zero_padded 4 (year t) +:+ "-" +:+ zero_padded 2 (month t) +:+ "-"
  +:+ zero_padded 2 (day t) +:+ "T" +:+ zero_padded 2 (hour t) +:+ ":"
  +:+ zero_padded 2 (minute t).

Definition hour12 (h : Z) : Z :=
  let r := h mod 12 in if r =? 0 then 12 else r.

(** [t.strftime('%A, %B %d, %Y at %I:%M %p')] *)
Definition strftime_message (t : datetime) : string :=
  nth (Z.to_nat (weekday t)) DAY_NAMES "" +:+ ", "
  +:+ nth (Z.to_nat (month t - 1)) MONTH_NAMES "" +:+ " "
  +:+ zero_padded 2 (day t) +:+ ", " +:+ zero_padded 4 (year t) +:+ " at "
  +:+ zero_padded 2 (hour12 (hour t)) +:+ ":" +:+ zero_padded 2 (minute t) +:+ " "
  +:+ (if hour t <? 12 then "AM" else "PM").

(** ** Effects

    A network read is a request and its answer; the URL of a request is
    kept as the parameters its template is filled with. *)

Inductive request :=
| SlotsRequest (location : value) (start finish : string)
| LocationListRequest
| DistanceRequest (zip1 zip2 : value).

Inductive level := DEBUG | INFO | ERROR.

(** What a run does, in order: network reads with their answers, calls
    of the posting API with their answers, lines printed on the console,
    and calls of [logging] (message and arguments as passed; whether a
    handler shows them depends on [--verbose]). *)

Inductive event :=
| EGet (r : request) (answer : result value)
| EPostUpdate (message : string) (answer : result unit)
| EPrint (message : string)
| EBasicConfig
| ELog (lvl : level) (msg : value) (args : list value).

(** The outside world: a clock, the three read services behind
    [requests.get(url).json()], and [api.PostUpdate].  Each call may
    change the world, so two identical requests may be answered
    differently. *)

Record network := Network {
  World : Type;
  datetime_now : World -> datetime * World;
  requests_get_json : request -> World -> result value * World;
  PostUpdate : string -> World -> result unit * World
}.

Record Args := mk_Args { test : bool; verbose : bool }.

(** ** Configuration *)

Definition LOCATIONS : list (string * Z) := [("PIA", 11002); ("STL", 12021)].
Definition HOME_ZIP : Z := 63021.
Definition MAX_DISTANCE_MILES : Z := 250.
Definition DELTA : Z := 26.

(** [NOTIF_MESSAGE.format(location=..., date=...)] *)
Definition NOTIF_MESSAGE (location date : string) : string :=
  "New appointment slot open at " +:+ location +:+ ": " +:+ date.

(** One entry of the location list: identifier, display name, zip. *)
Definition location : Type := value * value * value.

Section Bot.

Context (net : network).

(** ** The monad of the program

    A computation takes the world and gives back how it ended, what it
    did, and the world after it. *)

Definition M (A : Type) : Type := World net -> result A * list event * World net.

Definition ret {A} (a : A) : M A := fun w => (Ok a, [], w).

Definition raise {A} (e : exn) : M A := fun w => (Raise e, [], w).

(** What a computation did, put after the events [t] that came first. *)
Definition preceded {A} (t : list event) (x : result A * list event * World net)
  : result A * list event * World net :=
  let '(r, t', w) := x in (r, t ++ t', w).

Definition bind {A B} (m : M A) (f : A -> M B) : M B := fun w =>
  match m w with
  | (Ok a, t, w') => preceded t (f a w')
  | (Raise e, t, w') => (Raise e, t, w')
  end.

#[local] Instance M_ret : MRet M := @ret.
#[local] Instance M_bind : MBind M := fun A B f m => bind m f.

Definition lift {A} (r : result A) : M A := fun w => (r, [], w).

Definition emit (e : event) : M unit := fun w => (Ok tt, [e], w).

(** [try: m  except ...: handler]: the handler chooses the exceptions it
    catches; an exception raised by its body propagates. *)
Definition try_except {A} (m : M A) (handler : exn -> option (M A)) : M A := fun w =>
  match m w with
  | (Ok a, t, w') => (Ok a, t, w')
  | (Raise e, t, w') =>
      match handler e with
      | Some k => preceded t (k w')
      | None => (Raise e, t, w')
      end
  end.

Definition now : M datetime := fun w =>
  let '(t, w') := datetime_now net w in (Ok t, [], w').

Definition get_json (r : request) : M value := fun w =>
  let '(a, w') := requests_get_json net r w in (a, [EGet r a], w').

Definition api_PostUpdate (message : string) : M unit := fun w =>
  let '(a, w') := PostUpdate net message w in (a, [EPostUpdate message a], w').

Definition print (message : string) : M unit := emit (EPrint message).

Definition logging_debug (msg : value) (args : list value) : M unit :=
  emit (ELog DEBUG msg args).
Definition logging_info (msg : string) (args : list value) : M unit :=
  emit (ELog INFO (VStr msg) args).
Definition logging_exception (msg : string) : M unit :=
  emit (ELog ERROR (VStr msg) []).

Definition sys_exit {A} (code : Z) : M A := raise (SystemExit code).

(** [for x in l: body x] *)
Fixpoint for_each {A} (l : list A) (body : A -> M unit) : M unit :=
  match l with
  | [] => ret tt
  | x :: l' => body x;; for_each l' body
  end.

(** ** [tweet]

    Building [twitter.Api] from the credentials only stores them; the
    call that can fail is [api.PostUpdate]. *)

Definition tweet (message : string) : M unit :=
  try_except
    (api_PostUpdate message;;
     logging_info "Tweet Posted" [])
    (fun e =>
       match e with
       | TwitterError e_message =>
           Some (n ← lift (len e_message);
                 duplicate ←
                   (if (n =? 1)%nat then
                      first ← lift (getitem0 e_message);
                      code ← lift (getitem first "code");
                      mret (eq_int code 187)
                    else mret false);
                 if duplicate : bool then
                   logging_info "Tweet rejected (duplicate status)" []
                 else raise (TwitterError e_message))
       | _ => None
       end).

(** ** [calculate_distance] *)

Definition on_connection_error {A} (msg : string) (e : exn) : option (M A) :=
  match e with
  | ConnectionError => Some (logging_exception msg;; sys_exit 1)
  | _ => None
  end.

Definition calculate_distance (home_zip location_zip : value) (max_distance : Z)
  : M value :=
  let url := DistanceRequest home_zip location_zip in
  results ← try_except (get_json url)
              (on_connection_error "Could not connect to distance API");
  found ← lift (contains "distance" results);
  if found : bool then
    distance ← lift (getitem results "distance");
    below ← lift (lt_int distance max_distance);
    if below : bool then mret distance
    else mret (VBool false)
  else
    (* Several zipcodes aren't found *)
    logging_debug (VStr "ZipCode %s not found") [location_zip];;
    logging_debug results [];;
    mret (VBool false).

(** ** [get_full_location_list] *)

Fixpoint get_full_location_list_loop (results : list value) (locations : list location)
  : M (list location) :=
  match results with
  | [] => mret locations
  | result :: rest =>
      country ← lift (getitem result "countryCode");
      if eq_str country "US" then
        name ← lift (getitem result "shortName");
        name ← (if negb (truthy name) then lift (getitem result "name") else mret name);
        location_id ← lift (getitem result "id");
        postal ← lift (getitem result "postalCode");
        zipcode ← lift (slice_to 5 postal);
        logging_debug (VStr "Found %s in %s") [name; zipcode];;
        get_full_location_list_loop rest (locations ++ [(location_id, name, zipcode)])
      else
        logging_debug (VStr "Outside the US") [];;
        get_full_location_list_loop rest locations
  end.

Definition get_full_location_list : M (list location) :=
  let url := LocationListRequest in
  results ← try_except (get_json url)
              (on_connection_error "Could not connect to scheduler API");
  results ← lift (iter results);
  get_full_location_list_loop results [].

(** ** [is_location_nearby]

    The function has no [return]: its result is [None] on every path. *)

Definition is_location_nearby (name zipcode : value) : M value :=
  distance ← calculate_distance (VInt HOME_ZIP) zipcode MAX_DISTANCE_MILES;
  (if truthy distance then
     logging_info "*Nearby airport %s is in %s. %f miles away" [name; zipcode; distance]
   else mret tt);;
  mret VNone.

(** ** [check_for_openings] *)

Fixpoint check_for_openings_loop (location_name : string) (test_mode : bool)
    (results : list value) : M unit :=
  match results with
  | [] => logging_info ("No openings for " +:+ location_name) []
  | result :: rest =>
      active ← lift (getitem result "active");
      is_open ← lift (gt_int active 0);
      if is_open : bool then
        logging_info ("Opening found for " +:+ location_name) [];;
        stamp ← lift (getitem result "timestamp");
        timestamp ← lift (strptime_value stamp);
        let message := NOTIF_MESSAGE location_name (strftime_message timestamp) in
        if test_mode then print message
        else
          logging_info ("Tweeting: " +:+ message) [];;
          tweet message
        (* Halt on first match *)
      else check_for_openings_loop location_name test_mode rest
  end.

Definition check_for_openings (location_name : string) (location_code : value)
    (test_mode : bool) : M unit :=
  start ← now;
  finish ← lift (add_weeks start DELTA);
  let url := SlotsRequest location_code (strftime_ttp start) (strftime_ttp finish) in
  results ← try_except (get_json url)
              (on_connection_error "Could not connect to scheduler API");
  results ← lift (iter results);
  check_for_openings_loop location_name test_mode results.

(** ** [main] *)

(** The first loop of [main]. *)
Definition check_main_locations (locations : list (string * Z)) (args : Args) : M unit :=
  for_each locations
    (fun '(location_name, location_code) =>
       check_for_openings location_name (VInt location_code) (test args)).

(** The second loop of [main].  [location_name] is the variable the
    first loop left behind: the name of its last location, unbound when
    the list was empty. *)
Definition check_nearby_locations (location_name : option string)
    (locations : list location) (args : Args) : M unit :=
  for_each locations
    (fun '(location_id, name, zipcode) =>
       nearby ← is_location_nearby name zipcode;
       if truthy nearby then
         match location_name with
         | Some location_name => check_for_openings location_name location_id (test args)
         | None => raise UnboundLocalError
         end
       else mret tt).

(** [main], with the module's [LOCATIONS] as a parameter. *)
Definition main_with (LOCATIONS : list (string * Z)) (args : Args) : M unit :=
  (if verbose args then emit EBasicConfig else mret tt);;
  logging_info "Checking main locations" [];;
  check_main_locations LOCATIONS args;;
  let location_name := last (fst <$> LOCATIONS) in
  logging_info "Find locations within %d miles of %d" [VInt MAX_DISTANCE_MILES; VInt HOME_ZIP];;
  locations ← get_full_location_list;
  logging_info "Found %d locations" [VInt (Z.of_nat (length locations))];;
  check_nearby_locations location_name locations args.

Definition main (args : Args) : M unit := main_with LOCATIONS args.

End Bot.

Arguments ret {net A} a.
Arguments raise {net A} e.
Arguments lift {net A} r.
Arguments preceded {net A} t x.

(** A network that answers by the request alone, whatever came before. *)
Definition fixed_network (clock : datetime) (get : request -> result value)
    (post : string -> result unit) : network :=
  {| World := unit;
     datetime_now := fun w => (clock, w);
     requests_get_json := fun r w => (get r, w);
     PostUpdate := fun m w => (post m, w) |}.

(** *** Sample answers

    A clock, a few scheduler, directory and distance answers, and the
    networks that give them; the runs on them are computed below. *)

Definition noon : datetime := mk_datetime 2024 6 1 12 0 0 0.

Definition slot (active : Z) (timestamp : string) : value :=
  VDict {[ "active" := VInt active; "timestamp" := VStr timestamp ]}.

Definition directory_entry (country short long : string) (id : Z) (postal : string)
  : value :=
  VDict {[ "countryCode" := VStr country; "shortName" := VStr short;
           "name" := VStr long; "id" := VInt id; "postalCode" := VStr postal ]}.

Definition distance_answer (miles : Z) : value :=
  VDict {[ "distance" := VInt miles ]}.

Definition closed_slots : list value :=
  [slot 0 "2024-06-03T08:00"; slot 0 "2024-06-03T08:15"].

(** The second record is the first open one; the third is open too,
    with an earlier timestamp. *)
Definition mixed_slots : list value :=
  [slot 0 "2024-06-03T08:00"; slot 1 "2024-07-01T09:00"; slot 2 "2024-06-15T10:30"].

Definition kansas_city : value :=
  directory_entry "US" "" "Kansas City Enrollment Center" 7540 "641531234".

Definition toronto : value :=
  directory_entry "CA" "YYZ" "Toronto Pearson" 5027 "L5P1B2".

(** A US entry without the [shortName] key. *)
Definition no_short_name : value :=
  VDict {[ "countryCode" := VStr "US"; "name" := VStr "Kansas City Enrollment Center";
           "id" := VInt 7540; "postalCode" := VStr "641531234" ]}.

(** A US entry with an empty short name, and a number for postal code. *)
Definition numeric_postal_code : value :=
  VDict {[ "countryCode" := VStr "US"; "shortName" := VStr "";
           "name" := VStr "Kansas City Enrollment Center";
           "id" := VInt 7540; "postalCode" := VInt 64153 ]}.

Definition sample_network (slots : list value) (directory : list value)
    (miles : Z) : network :=
  fixed_network noon
    (fun r => match r with
              | SlotsRequest _ _ _ => Ok (VList slots)
              | LocationListRequest => Ok (VList directory)
              | DistanceRequest _ _ => Ok (distance_answer miles)
              end)
    (fun _ => Ok tt).

(** The first open record carries seconds in its timestamp. *)
Definition slots_with_seconds : list value :=
  [slot 0 "2024-06-03T08:00"; slot 3 "2024-07-01T09:00:00"; slot 1 "2024-07-02T09:00"].

(** The scheduler cannot be reached. *)
Definition offline_network : network :=
  fixed_network noon (fun _ => Raise ConnectionError) (fun _ => Ok tt).


(** ** Open and closed slots

    A slot is open when its active-count is a number above zero, closed
    when it is a number that is not. *)

Definition active_count (r : value) : result Q :=
  a ← getitem r "active"; as_number a.

Definition has_opening (r : value) : bool :=
  match active_count r with
  | Ok q => Qlt_bool 0 q
  | Raise _ => false
  end.

Definition no_opening (r : value) : bool :=
  match active_count r with
  | Ok q => Qle_bool q 0
  | Raise _ => false
  end.

(** The events of the scan for nearby locations: reads of the directory
    and of the distance service, and calls of [logging]. *)
Definition scan_event (e : event) : Prop :=
  match e with
  | ELog _ _ _ => True
  | EGet LocationListRequest _ => True
  | EGet (DistanceRequest _ _) _ => True
  | _ => False
  end.

(** ** Entries of the directory

    What the location list holds for an entry, read off the entry
    alone: the identifier, the short name or else the long name, and
    the first five characters of the postal code. *)

Definition is_US (e : value) : bool :=
  match getitem e "countryCode" with
  | Ok country => eq_str country "US"
  | Raise _ => false
  end.

Definition display_name (e : value) : result value :=
  short ← getitem e "shortName";
  if truthy short then Ok short else getitem e "name".

Definition location_of (e : value) : result location :=
  name ← display_name e;
  location_id ← getitem e "id";
  postal ← getitem e "postalCode";
  zipcode ← slice_to 5 postal;
  Ok (location_id, name, zipcode).

(** An entry the directory documents: it has a country code, and a US
    entry has the fields of a location, the postal code a string (or a
    list) to slice. *)
Definition well_formed_entry (e : value) : Prop :=
  (exists country, getitem e "countryCode" = Ok country)
  /\ (is_US e = true -> exists loc, location_of e = Ok loc).

Definition is_log (e : event) : Prop :=
  match e with
  | ELog _ _ _ => True
  | _ => False
  end.

(** ** Connection failures

    A read that failed to connect, and what a run looks like when the
    program treats such a failure as fatal: either no read failed, or
    the run ends with the failed read, one ERROR log, and exit status 1. *)

Definition failed_read (e : event) : Prop :=
  match e with
  | EGet _ (Raise ConnectionError) => True
  | _ => False
  end.

Definition fatal {W A} (x : result A * list event * W) : Prop :=
  Forall (fun e => ~ failed_read e) x.1.2
  \/ (x.1.1 = Raise (SystemExit 1)
      /\ exists before r msg,
          x.1.2 = before ++ [EGet r (Raise ConnectionError); ELog ERROR (VStr msg) []]
          /\ Forall (fun e => ~ failed_read e) before).

(** The events of the first loop of [main]: anything but a read of the
    directory or of the distance service. *)
Definition first_loop_event (e : event) : Prop :=
  match e with
  | EGet LocationListRequest _ => False
  | EGet (DistanceRequest _ _) _ => False
  | _ => True
  end.

Definition is_log_or_config (e : event) : Prop :=
  match e with
  | ELog _ _ _ | EBasicConfig => True
  | _ => False
  end.

(** ** Answers of the posting service

    The duplicate rejection: an error payload of exactly one entry whose
    code is 187. *)

Definition is_duplicate_rejection (e_message : value) : bool :=
  match e_message with
  | VList [VDict entry] =>
      match entry !! "code" with
      | Some code => eq_int code 187
      | None => false
      end
  | _ => false
  end.

(** The answers after which nothing is left to report: the post went
    through, or it was rejected as a duplicate. *)
Definition benign (answer : result unit) : bool :=
  match answer with
  | Ok _ => true
  | Raise (TwitterError e_message) => is_duplicate_rejection e_message
  | Raise _ => false
  end.

(** ** Reading a trace *)

Definition outcome {W A} (x : result A * list event * W) : result A := x.1.1.
Definition trace {W A} (x : result A * list event * W) : list event := x.1.2.

Definition printed (t : list event) : list string :=
  omap (fun e => match e with EPrint m => Some m | _ => None end) t.

Definition posted (t : list event) : list string :=
  omap (fun e => match e with EPostUpdate m _ => Some m | _ => None end) t.

Definition requested (t : list event) : list request :=
  omap (fun e => match e with EGet r _ => Some r | _ => None end) t.

(** [only net P m]: whatever the network answers, every event of [m]
    satisfies [P]. *)
Definition only (net : network) (P : event -> Prop) {A} (m : M net A) : Prop :=
  forall w, Forall P (trace (m w)).

(** [always_fatal net m]: whatever the network answers, a run of [m]
    treats a failed read as fatal. *)
Definition always_fatal (net : network) {A} (m : M net A) : Prop :=
  forall w, fatal (m w).

(** ** Counting events

    [at_most net g n m]: whatever the network answers, a run of [m]
    holds at most [n] events that [g] selects. *)

Definition at_most (net : network) {B} (g : event -> option B) (n : nat) {A}
    (m : M net A) : Prop :=
  forall w, (length (omap g (trace (m w))) <= n)%nat.

Definition print_of (e : event) : option string :=
  match e with EPrint m => Some m | _ => None end.

Definition post_of (e : event) : option string :=
  match e with EPostUpdate m _ => Some m | _ => None end.

(** The location codes of the scheduler reads of a trace, and the zip
    codes of its distance reads, in order. *)
Definition slot_codes (t : list event) : list value :=
  omap (fun e => match e with
                 | EGet (SlotsRequest code _ _) _ => Some code
                 | _ => None
                 end) t.

Definition distance_zips (t : list event) : list value :=
  omap (fun e => match e with
                 | EGet (DistanceRequest _ zip) _ => Some zip
                 | _ => None
                 end) t.

(** [reads_first net r P m]: whatever the network answers, a run of [m]
    starts with the read [r], and every later event satisfies [P]. *)
Definition reads_first (net : network) (r : request) (P : event -> Prop) {A}
    (m : M net A) : Prop :=
  forall w, exists a rest, trace (m w) = EGet r a :: rest /\ Forall P rest.

Definition not_a_read (e : event) : Prop :=
  match e with
  | EGet _ _ => False
  | _ => True
  end.



(** ** The calendar, one cycle of 400 years at a time

    [ord2ymd] after its first division: the date of day [n] (from 0) of
    the cycle [n400]. *)

Definition ord2ymd_in_cycle (n400 n : Z) : Z * Z * Z :=
  let n100 := n / DI100Y in
  let n := n mod DI100Y in
  let n4 := n / DI4Y in
  let n := n mod DI4Y in
  let n1 := n / 365 in
  let n := n mod 365 in
  let y := n400 * 400 + 1 + n100 * 100 + n4 * 4 + n1 in
  if (n1 =? 4) || (n100 =? 4) then (y - 1, 12, 31)
  else
    let leapyear := (n1 =? 3) && (negb (n4 =? 24) || (n100 =? 3)) in
    let m := Z.shiftr (n + 50) 5 in
    let preceding :=
      nth (Z.to_nat (m - 1)) DAYS_BEFORE_MONTH 0
      + (if (2 <? m) && leapyear then 1 else 0) in
    if n <? preceding then
      let m' := m - 1 in
      let preceding' :=
        preceding - (nth (Z.to_nat (m' - 1)) DAYS_IN_MONTH 0
                     + (if (m' =? 2) && leapyear then 1 else 0)) in
      (y, m', n - preceding' + 1)
    else (y, m, n - preceding + 1).

(** [f] holds on the [2 ^ k] integers from [start] on. *)
Fixpoint all_in_range (f : Z -> bool) (k : nat) (start : Z) : bool :=
  match k with
  | O => f start
  | S k' => all_in_range f k' start && all_in_range f k' (start + 2 ^ Z.of_nat k')
  end.

(** The month and the day of day [n] (from 0) of a year. *)
Definition month_day (leapyear : bool) (n : Z) : Z * Z :=
  let m := Z.shiftr (n + 50) 5 in
  let preceding :=
    nth (Z.to_nat (m - 1)) DAYS_BEFORE_MONTH 0
    + (if (2 <? m) && leapyear then 1 else 0) in
  if n <? preceding then
    let m' := m - 1 in
    let preceding' :=
      preceding - (nth (Z.to_nat (m' - 1)) DAYS_IN_MONTH 0
                   + (if (m' =? 2) && leapyear then 1 else 0)) in
    (m', n - preceding' + 1)
  else (m, n - preceding + 1).

(** Year 4 stands for the leap years, year 1 for the others. *)
Definition sample_year (leapyear : bool) : Z := if leapyear then 4 else 1.

Definition month_day_ok (leapyear : bool) (n : Z) : bool :=
  let y := sample_year leapyear in
  let '(m, d) := month_day leapyear n in
  (365 + (if leapyear then 1 else 0) <=? n)
  || ((days_before_month y m + d =? n + 1)
      && (1 <=? m) && (m <=? 12) && (1 <=? d) && (d <=? days_in_month y m)).

(** The end of a window that starts at [start]: 26 weeks later to the
    day, at the same time, and a date of the calendar. *)
Definition window_end (start finish : datetime) : Prop :=
  toordinal finish = toordinal start + 7 * DELTA
  /\ hour finish = hour start /\ minute finish = minute start
  /\ second finish = second start /\ microsecond finish = microsecond start
  /\ MINYEAR <= year finish <= MAXYEAR
  /\ 1 <= month finish <= 12
  /\ 1 <= day finish <= days_in_month (year finish) (month finish).

(** ** Running the monad *)

Section Run.

Context (net : network).

#[local] Existing Instance M_ret.
#[local] Existing Instance M_bind.

Lemma preceded_nil {A} (x : result A * list event * World net) : preceded [] x = x.
Proof. by destruct x as [[r t] w]. Qed.

Lemma preceded_preceded {A} t1 t2 (x : result A * list event * World net) :
  preceded t1 (preceded t2 x) = preceded (t1 ++ t2) x.
Proof. destruct x as [[r t] w]; simpl. by rewrite app_assoc. Qed.

Lemma run_bind {A B} (m : M net A) (f : A -> M net B) w :
  (m ≫= f) w =
  match m w with
  | (Ok a, t, w') => preceded t (f a w')
  | (Raise e, t, w') => (Raise e, t, w')
  end.
Proof. reflexivity. Qed.

Lemma run_lift_bind {A B} (r : result A) (f : A -> M net B) w :
  (lift r ≫= f) w =
  match r with
  | Ok a => f a w
  | Raise e => (Raise e, [], w)
  end.
Proof. rewrite run_bind. unfold lift. destruct r; [apply preceded_nil | done]. Qed.

Lemma run_ret_bind {A B} (a : A) (f : A -> M net B) w : (mret a ≫= f) w = f a w.
Proof. rewrite run_bind. apply preceded_nil. Qed.

Lemma run_emit_bind {B} (e : event) (f : unit -> M net B) w :
  (emit net e ≫= f) w = preceded [e] (f tt w).
Proof. reflexivity. Qed.

Lemma run_logging_info_bind {B} msg args (f : unit -> M net B) w :
  (logging_info net msg args ≫= f) w = preceded [ELog INFO (VStr msg) args] (f tt w).
Proof. reflexivity. Qed.

Lemma run_bind_assoc {A B C} (m : M net A) (f : A -> M net B) (g : B -> M net C) w :
  ((m ≫= f) ≫= g) w = (m ≫= (fun a => f a ≫= g)) w.
Proof.
  rewrite !run_bind. destruct (m w) as [[[a|e] t] w1]; [|done].
  rewrite run_bind. destruct (f a w1) as [[[b|e] t1] w2]; simpl; [|done].
  destruct (g b w2) as [[r t2] w3]; simpl. by rewrite app_assoc.
Qed.


(** *** The scan of [check_for_openings] *)

Lemma check_for_openings_loop_skip name test_mode r rest w :
  no_opening r = true ->
  check_for_openings_loop net name test_mode (r :: rest) w =
  check_for_openings_loop net name test_mode rest w.
Proof.
  unfold no_opening, active_count. intros H. simpl.
  rewrite run_lift_bind.
  destruct (getitem r "active") as [a|]; simpl in H |- *; [|done].
  unfold gt_int. destruct (as_number a) as [q|]; simpl in H |- *; [|done].
  rewrite run_lift_bind. unfold Qlt_bool.
  change (inject_Z 0) with 0%Q. by rewrite H.
Qed.

Lemma check_for_openings_loop_hit name test_mode r rest w :
  has_opening r = true ->
  check_for_openings_loop net name test_mode (r :: rest) w =
  (logging_info net ("Opening found for " +:+ name) [];;
   stamp ← lift (getitem r "timestamp");
   timestamp ← lift (strptime_value stamp);
   let message := NOTIF_MESSAGE name (strftime_message timestamp) in
   if test_mode then print net message
   else logging_info net ("Tweeting: " +:+ message) [];; tweet net message) w.
Proof.
  unfold has_opening, active_count. intros H. simpl.
  rewrite run_lift_bind.
  destruct (getitem r "active") as [a|]; simpl in H |- *; [|done].
  unfold gt_int. destruct (as_number a) as [q|]; simpl in H |- *; [|done].
  rewrite run_lift_bind.
  change (inject_Z 0) with 0%Q. by rewrite H.
Qed.

Lemma check_for_openings_loop_closed name test_mode results w :
  Forall (fun r => no_opening r = true) results ->
  check_for_openings_loop net name test_mode results w =
  (Ok tt, [ELog INFO (VStr ("No openings for " +:+ name)) []], w).
Proof.
  induction 1 as [|r rest Hr _ IH]; [done|].
  by rewrite check_for_openings_loop_skip.
Qed.


(** *** Events of one kind *)

Section Only.

Context (P : event -> Prop).

Lemma only_ret {A} (a : A) : only net P (mret a).
Proof. intros w. constructor. Qed.

Lemma only_lift {A} (r : result A) : only net P (lift r).
Proof. intros w. constructor. Qed.

Lemma only_raise {A} e : only net P (@raise net A e).
Proof. intros w. constructor. Qed.

Lemma only_emit e : P e -> only net P (emit net e).
Proof. intros He w. by repeat constructor. Qed.

Lemma trace_preceded {A} t (x : result A * list event * World net) :
  trace (preceded t x) = t ++ trace x.
Proof. by destruct x as [[r t'] w]. Qed.

Lemma only_bind {A B} (m : M net A) (f : A -> M net B) :
  only net P m -> (forall a, only net P (f a)) -> only net P (m ≫= f).
Proof.
  intros Hm Hf w. rewrite run_bind. specialize (Hm w).
  destruct (m w) as [[[a|e] t] w1]; [|done].
  rewrite trace_preceded. apply Forall_app. split; [done | apply Hf].
Qed.

Lemma only_try_except {A} (m : M net A) handler :
  only net P m -> (forall e k, handler e = Some k -> only net P k) -> only net P (try_except net m handler).
Proof.
  intros Hm Hh w. unfold try_except. specialize (Hm w).
  destruct (m w) as [[[a|e] t] w1]; [done|].
  destruct (handler e) as [k|] eqn:Hk; [|done].
  rewrite trace_preceded. apply Forall_app. split; [done | by eapply Hh].
Qed.

Lemma only_get_json r : (forall a, P (EGet r a)) -> only net P (get_json net r).
Proof.
  intros Hr w. unfold get_json.
  destruct (requests_get_json net r w) as [a w1]. by repeat constructor.
Qed.

Lemma only_for_each {A} (l : list A) body :
  (forall x, only net P (body x)) -> only net P (for_each net l body).
Proof.
  intros Hb. induction l as [|x l IH]; [apply only_ret|].
  simpl. apply only_bind; [apply Hb | done].
Qed.

Lemma only_bind_returns {A B} (Q : A -> Prop) (m : M net A) (f : A -> M net B) :
  only net P m -> (forall w a t w', m w = (Ok a, t, w') -> Q a) ->
  (forall a, Q a -> only net P (f a)) -> only net P (m ≫= f).
Proof.
  intros Hm HQ Hf w. rewrite run_bind. specialize (Hm w). specialize (HQ w).
  destruct (m w) as [[[a|e] t] w1]; [|done].
  rewrite trace_preceded. apply Forall_app. split; [done|].
  apply Hf. by eapply HQ.
Qed.

End Only.

(** *** The events of the notifier and of the scan for openings *)

Lemma only_on_connection_error {A} P msg e (k : M net A) :
  (forall lvl m args, P (ELog lvl m args)) ->
  on_connection_error net msg e = Some k -> only net P k.
Proof.
  intros Hlog. destruct e; try done. intros [= <-].
  apply only_bind; [by apply only_emit | intros; apply only_raise].
Qed.

Lemma only_tweet P message :
  (forall lvl m args, P (ELog lvl m args)) ->
  (forall m a, P (EPostUpdate m a)) ->
  only net P (tweet net message).
Proof.
  intros Hlog Hpost. unfold tweet. apply only_try_except.
  - apply only_bind.
    + intros w. unfold api_PostUpdate.
      destruct (PostUpdate net message w) as [a w1]. simpl.
      apply Forall_cons_2; [done | apply Forall_nil_2].
    + intros _. by apply only_emit.
  - intros e k Hk. destruct e; try done. simplify_eq.
    apply only_bind; [apply only_lift|]. intros n.
    apply only_bind.
    { destruct (n =? 1)%nat; [|apply only_ret].
      do 2 (apply only_bind; [apply only_lift|]; intros ?). apply only_ret. }
    intros []; [by apply only_emit | apply only_raise].
Qed.

Lemma only_check_for_openings_loop P name test_mode results :
  (forall lvl m args, P (ELog lvl m args)) ->
  (forall m a, P (EPostUpdate m a)) ->
  (forall m, P (EPrint m)) ->
  only net P (check_for_openings_loop net name test_mode results).
Proof.
  intros Hlog Hpost Hprint.
  induction results as [|r rest IH]; simpl.
  { by apply only_emit. }
  apply only_bind; [apply only_lift|]. intros active.
  apply only_bind; [apply only_lift|]. intros []; [|done].
  apply only_bind; [by apply only_emit|]. intros _.
  do 2 (apply only_bind; [apply only_lift|]; intros ?).
  destruct test_mode; [by apply only_emit|].
  apply only_bind; [by apply only_emit|]. intros _. by apply only_tweet.
Qed.

Lemma only_check_for_openings P name code test_mode :
  (forall lvl m args, P (ELog lvl m args)) ->
  (forall m a, P (EPostUpdate m a)) ->
  (forall m, P (EPrint m)) ->
  (forall start finish a, P (EGet (SlotsRequest code start finish) a)) ->
  only net P (check_for_openings net name code test_mode).
Proof.
  intros Hlog Hpost Hprint Hget. unfold check_for_openings.
  apply only_bind.
  { intros w. unfold now. destruct (datetime_now net w). apply Forall_nil_2. }
  intros start. apply only_bind; [apply only_lift|]. intros finish.
  apply only_bind.
  { apply only_try_except; [by apply only_get_json|].
    intros e k. by apply only_on_connection_error. }
  intros results. apply only_bind; [apply only_lift|]. intros l.
  by apply only_check_for_openings_loop.
Qed.

Lemma only_check_main_locations P locations args :
  (forall lvl m args, P (ELog lvl m args)) ->
  (forall m a, P (EPostUpdate m a)) ->
  (forall m, P (EPrint m)) ->
  (forall location start finish a, P (EGet (SlotsRequest location start finish) a)) ->
  only net P (check_main_locations net locations args).
Proof.
  intros Hlog Hpost Hprint Hget. apply only_for_each.
  intros [name code]. by apply only_check_for_openings.
Qed.

(** *** The nearby scan reads the directory and the distances, and logs *)

Lemma only_calculate_distance P home_zip location_zip max_distance :
  (forall lvl m args, P (ELog lvl m args)) ->
  (forall a, P (EGet (DistanceRequest home_zip location_zip) a)) ->
  only net P (calculate_distance net home_zip location_zip max_distance).
Proof.
  intros Hlog Hget. unfold calculate_distance.
  apply only_bind.
  { apply only_try_except; [by apply only_get_json|].
    intros e k. by apply only_on_connection_error. }
  intros results. apply only_bind; [apply only_lift|]. intros [].
  - apply only_bind; [apply only_lift|]. intros distance.
    apply only_bind; [apply only_lift|]. intros []; apply only_ret.
  - repeat (apply only_bind; [by apply only_emit|]; intros _).
    apply only_ret.
Qed.

Lemma only_is_location_nearby P name zipcode :
  (forall lvl m args, P (ELog lvl m args)) ->
  (forall a, P (EGet (DistanceRequest (VInt HOME_ZIP) zipcode) a)) ->
  only net P (is_location_nearby net name zipcode).
Proof.
  intros Hlog Hget. unfold is_location_nearby.
  apply only_bind; [by apply only_calculate_distance|]. intros distance.
  apply only_bind; [|intros; apply only_ret].
  destruct (truthy distance); [by apply only_emit | apply only_ret].
Qed.

(** [is_location_nearby] returns [None] whenever it returns. *)
Lemma is_location_nearby_returns name zipcode w a t w' :
  is_location_nearby net name zipcode w = (Ok a, t, w') -> a = VNone.
Proof.
  unfold is_location_nearby. rewrite run_bind.
  destruct (calculate_distance _ _ _ _ w) as [[[distance|e] t1] w1]; [|done].
  rewrite run_bind.
  destruct (truthy distance); simpl; congruence.
Qed.

Lemma only_get_full_location_list_loop P results locations :
  (forall lvl m args, P (ELog lvl m args)) ->
  only net P (get_full_location_list_loop net results locations).
Proof.
  intros Hlog. revert locations.
  induction results as [|result rest IH]; intros locations; [apply only_ret|].
  simpl. apply only_bind; [apply only_lift|]. intros country.
  destruct (eq_str country "US").
  - apply only_bind; [apply only_lift|]. intros name.
    apply only_bind.
    { destruct (negb (truthy name)); [apply only_lift | apply only_ret]. }
    intros name'.
    do 3 (apply only_bind; [apply only_lift|]; intros ?).
    apply only_bind; [by apply only_emit|]. intros _. apply IH.
  - apply only_bind; [by apply only_emit|]. intros _. apply IH.
Qed.

Lemma only_get_full_location_list P :
  (forall lvl m args, P (ELog lvl m args)) ->
  (forall a, P (EGet LocationListRequest a)) ->
  only net P (get_full_location_list net).
Proof.
  intros Hlog Hget. unfold get_full_location_list.
  apply only_bind.
  { apply only_try_except; [by apply only_get_json|].
    intros e k. by apply only_on_connection_error. }
  intros results. apply only_bind; [apply only_lift|].
  intros l. by apply only_get_full_location_list_loop.
Qed.

Lemma only_check_nearby_locations P location_name locations args :
  (forall lvl m args, P (ELog lvl m args)) ->
  (forall z1 z2 a, P (EGet (DistanceRequest z1 z2) a)) ->
  only net P (check_nearby_locations net location_name locations args).
Proof.
  intros Hlog Hget. unfold check_nearby_locations.
  apply only_for_each. intros [[location_id name] zipcode].
  apply (only_bind_returns P (fun a => a = VNone)).
  - by apply only_is_location_nearby.
  - intros w a t w'. apply is_location_nearby_returns.
  - intros a ->. apply only_ret.
Qed.

End Run.

#[local] Existing Instance M_ret.
#[local] Existing Instance M_bind.

(** ** The opening checker *)

(** Once the scheduler has answered with a list, [check_for_openings]
    is its scan of that list. *)
Lemma check_for_openings_fetched net name code test_mode w start w1 finish results w2 :
  datetime_now net w = (start, w1) ->
  add_weeks start DELTA = Ok finish ->
  requests_get_json net
    (SlotsRequest code (strftime_ttp start) (strftime_ttp finish)) w1
  = (Ok (VList results), w2) ->
  check_for_openings net name code test_mode w =
  preceded
    [EGet (SlotsRequest code (strftime_ttp start) (strftime_ttp finish)) (Ok (VList results))]
    (check_for_openings_loop net name test_mode results w2).
Proof.
  intros Hnow Hadd Hget. unfold check_for_openings.
  rewrite run_bind. unfold now at 1. rewrite Hnow. rewrite preceded_nil.
  rewrite run_lift_bind, Hadd. rewrite run_bind.
  unfold try_except, get_json. rewrite Hget.
  by rewrite run_lift_bind.
Qed.

(** C3: when no record of the scheduler's answer has an active-count
    above zero, the opening checker only reads the answer and logs "No
    openings": it returns normally, prints nothing and posts nothing,
    in test mode or not. *)
Theorem no_opening_no_message net name code test_mode w start w1 finish results w2 :
  datetime_now net w = (start, w1) ->
  add_weeks start DELTA = Ok finish ->
  requests_get_json net
    (SlotsRequest code (strftime_ttp start) (strftime_ttp finish)) w1
  = (Ok (VList results), w2) ->
  Forall (fun r => no_opening r = true) results ->
  let run := check_for_openings net name code test_mode w in
  run = (Ok tt,
         [EGet (SlotsRequest code (strftime_ttp start) (strftime_ttp finish))
            (Ok (VList results));
          ELog INFO (VStr ("No openings for " +:+ name)) []],
         w2)
  /\ printed (trace run) = []
  /\ posted (trace run) = [].
Proof.
  intros Hnow Hadd Hget Hclosed run. subst run.
  rewrite (check_for_openings_fetched _ _ _ _ _ _ _ _ _ _ Hnow Hadd Hget).
  by rewrite check_for_openings_loop_closed.
Qed.

(** C2: the opening checker announces the first record of the
    scheduler's answer whose active-count is above zero.  With closed
    records [earlier] and an open record [r], the run on
    [earlier ++ r :: later] is the run on [r] alone, whatever [later]
    holds; when the timestamp of [r] reads as a time, the run logs the
    opening and prints (test mode) or posts the message made from [r]. *)
Theorem first_open_slot_is_announced net name code test_mode w start w1 finish
    earlier r later w2 :
  datetime_now net w = (start, w1) ->
  add_weeks start DELTA = Ok finish ->
  requests_get_json net
    (SlotsRequest code (strftime_ttp start) (strftime_ttp finish)) w1
  = (Ok (VList (earlier ++ r :: later)), w2) ->
  Forall (fun r => no_opening r = true) earlier ->
  has_opening r = true ->
  let url := SlotsRequest code (strftime_ttp start) (strftime_ttp finish) in
  let read := EGet url (Ok (VList (earlier ++ r :: later))) in
  check_for_openings net name code test_mode w =
    preceded [read] (check_for_openings_loop net name test_mode [r] w2)
  /\ forall stamp timestamp,
      getitem r "timestamp" = Ok stamp ->
      strptime_value stamp = Ok timestamp ->
      let message := NOTIF_MESSAGE name (strftime_message timestamp) in
      check_for_openings net name code test_mode w =
        preceded [read; ELog INFO (VStr ("Opening found for " +:+ name)) []]
          ((if test_mode then print net message
            else logging_info net ("Tweeting: " +:+ message) [];; tweet net message) w2).
Proof.
  intros Hnow Hadd Hget Hclosed Hopen url read.
  rewrite (check_for_openings_fetched _ _ _ _ _ _ _ _ _ _ Hnow Hadd Hget).
  assert (Hscan : forall rest,
    check_for_openings_loop net name test_mode (earlier ++ r :: rest) w2 =
    check_for_openings_loop net name test_mode [r] w2).
  { intros rest. clear Hget read. induction Hclosed as [|r0 l Hr0 _ IH]; simpl app.
    - by rewrite !check_for_openings_loop_hit by done.
    - by rewrite check_for_openings_loop_skip. }
  rewrite Hscan. split; [done|].
  intros stamp timestamp Hstamp Htime message.
  rewrite check_for_openings_loop_hit by done.
  rewrite run_logging_info_bind, run_lift_bind, Hstamp, run_lift_bind, Htime.
  by rewrite preceded_preceded.
Qed.

(** ** End to end *)

Lemma printed_app t1 t2 : printed (t1 ++ t2) = printed t1 ++ printed t2.
Proof. apply omap_app. Qed.

Lemma posted_app t1 t2 : posted (t1 ++ t2) = posted t1 ++ posted t2.
Proof. apply omap_app. Qed.

Lemma scan_events_announce_nothing t :
  Forall scan_event t -> printed t = [] /\ posted t = [].
Proof.
  induction 1 as [|e t He _ [IH1 IH2]]; [done|].
  destruct e as [[]| | | |]; try done.
Qed.

(** What [main] does after its first loop. *)
Lemma only_scan_after_first_loop net location_name args :
  only net scan_event
    (logging_info net "Find locations within %d miles of %d"
       [VInt MAX_DISTANCE_MILES; VInt HOME_ZIP];;
     locations ← get_full_location_list net;
     logging_info net "Found %d locations" [VInt (Z.of_nat (length locations))];;
     check_nearby_locations net location_name locations args).
Proof.
  apply only_bind; [by apply only_emit|]. intros _.
  apply only_bind; [by apply only_get_full_location_list|]. intros locations.
  apply only_bind; [by apply only_emit|]. intros _.
  by apply only_check_nearby_locations.
Qed.

(** C8: with the fixed list [("PIA", 11002)], test mode on, and the
    scheduler answering the request for location 11002 with the single
    record [{"active": 1, "timestamp": "2024-07-01T09:00"}], [main]
    prints exactly "New appointment slot open at PIA: Monday, July 01,
    2024 at 09:00 AM" and never calls the posting API, whatever the
    directory and the distance service answer afterwards. *)
Theorem end_to_end_test_mode net args w start w1 finish w2 :
  test args = true ->
  datetime_now net w = (start, w1) ->
  add_weeks start DELTA = Ok finish ->
  requests_get_json net
    (SlotsRequest (VInt 11002) (strftime_ttp start) (strftime_ttp finish)) w1
  = (Ok (VList [slot 1 "2024-07-01T09:00"]), w2) ->
  let run := main_with net [("PIA", 11002)] args w in
  printed (trace run) =
    ["New appointment slot open at PIA: Monday, July 01, 2024 at 09:00 AM"]
  /\ posted (trace run) = [].
Proof.
  intros Htest Hnow Hadd Hget run.
  assert (Hfirst : check_main_locations net [("PIA", 11002)] args w =
    (Ok tt,
     [EGet (SlotsRequest (VInt 11002) (strftime_ttp start) (strftime_ttp finish))
        (Ok (VList [slot 1 "2024-07-01T09:00"]));
      ELog INFO (VStr "Opening found for PIA") [];
      EPrint "New appointment slot open at PIA: Monday, July 01, 2024 at 09:00 AM"],
     w2)).
  { unfold check_main_locations. simpl for_each. rewrite run_bind.
    rewrite (check_for_openings_fetched _ _ _ _ _ _ _ _ _ _ Hnow Hadd Hget).
    rewrite check_for_openings_loop_hit by by vm_compute.
    rewrite run_logging_info_bind, run_lift_bind.
    replace (getitem (slot 1 "2024-07-01T09:00") "timestamp")
      with (Ok (VStr "2024-07-01T09:00")) by by vm_compute.
    rewrite run_lift_bind.
    replace (strptime_value (VStr "2024-07-01T09:00"))
      with (Ok (mk_datetime 2024 7 1 9 0 0 0)) by by vm_compute.
    rewrite Htest.
    replace (NOTIF_MESSAGE "PIA" (strftime_message (mk_datetime 2024 7 1 9 0 0 0)))
      with "New appointment slot open at PIA: Monday, July 01, 2024 at 09:00 AM"
      by by vm_compute.
    reflexivity. }
  pose proof (only_scan_after_first_loop net
                (last (fst <$> [("PIA", 11002)])) args w2) as Hrest.
  subst run. unfold main_with.
  rewrite run_bind.
  assert (Hcfg : exists t0,
    (if verbose args then emit net EBasicConfig else mret ()) w = (Ok tt, t0, w)
    /\ printed t0 = [] /\ posted t0 = []).
  { destruct (verbose args); by eexists. }
  destruct Hcfg as (t0 & -> & Hp0 & Hq0).
  rewrite run_logging_info_bind, run_bind, Hfirst.
  rewrite !trace_preceded.
  destruct (scan_events_announce_nothing _ Hrest) as [Hp Hq].
  rewrite !printed_app, !posted_app, Hp0, Hq0, Hp, Hq.
  done.
Qed.

(** ** The notifier *)

Local Ltac tweet_cases :=
  solve [ simpl; repeat split; intros; simplify_eq/=;
          repeat match goal with
                 | Hc : ?e !! ?k = _, H : context [?e !! ?k] |- _ => rewrite Hc in H
                 | Hc : ?e !! ?k = _ |- context [?e !! ?k] => rewrite Hc
                 end;
          try done; try lia; try congruence ].

(** C4: [tweet] returns normally exactly when the posting service
    accepted the post or rejected it with code 187 in a payload of one
    entry; the rejection is then logged.  A payload of two or more
    entries, or a single entry with another code, raises the
    [TwitterError] again. *)
Theorem tweet_fails_unless_benign net message w :
  let answer := (PostUpdate net message w).1 in
  let run := tweet net message w in
  (outcome run = Ok tt <-> benign answer = true)
  /\ (answer = Ok tt ->
      trace run = [EPostUpdate message answer; ELog INFO (VStr "Tweet Posted") []])
  /\ (forall e_message,
        answer = Raise (TwitterError e_message) ->
        is_duplicate_rejection e_message = true ->
        trace run = [EPostUpdate message answer;
                     ELog INFO (VStr "Tweet rejected (duplicate status)") []])
  /\ (forall entries,
        answer = Raise (TwitterError (VList entries)) ->
        (2 <= length entries)%nat ->
        run = (Raise (TwitterError (VList entries)),
               [EPostUpdate message answer], (PostUpdate net message w).2))
  /\ (forall entry code,
        answer = Raise (TwitterError (VList [VDict entry])) ->
        entry !! "code" = Some code ->
        eq_int code 187 = false ->
        run = (Raise (TwitterError (VList [VDict entry])),
               [EPostUpdate message answer], (PostUpdate net message w).2)).
Proof.
  intros answer run. subst answer run.
  unfold tweet, try_except. rewrite run_bind. unfold api_PostUpdate.
  destruct (PostUpdate net message w) as [answer w']. simpl fst. simpl snd.
  destruct answer as [[]|e]; [tweet_cases|].
  destruct e as [| | | | | |e_message| | |]; try tweet_cases.
  rewrite run_lift_bind.
  destruct e_message as [|b|q|s|l|d]; simpl len; cbv iota; try tweet_cases.
  - (* a string *)
    destruct s as [|c [|c' s']]; tweet_cases.
  - (* a list *)
    destruct l as [|first [|second l']];
      [tweet_cases| |destruct first; tweet_cases].
    simpl length. change (1 =? 1)%nat with true. cbv iota.
    rewrite run_bind, run_lift_bind. simpl getitem0. cbv iota.
    rewrite run_lift_bind.
    destruct first as [|b|q|s|l|entry]; try tweet_cases.
    simpl getitem. simpl is_duplicate_rejection.
    destruct (entry !! "code") as [code|] eqn:Hcode; [|tweet_cases].
    destruct (eq_int code 187) eqn:H187; tweet_cases.
  - (* an object *)
    simpl. destruct (size d =? 1)%nat; tweet_cases.
Qed.

(** ** The distance filter *)

Lemma lt_int_num q n : lt_int (VNum q) n = Ok (Qlt_bool q (inject_Z n)).
Proof. reflexivity. Qed.

Lemma calculate_distance_fetched net home_zip location_zip max_distance w response w' :
  requests_get_json net (DistanceRequest home_zip location_zip) w
  = (Ok (VDict response), w') ->
  calculate_distance net home_zip location_zip max_distance w =
  preceded [EGet (DistanceRequest home_zip location_zip) (Ok (VDict response))]
    (match response !! "distance" with
     | Some distance =>
         below ← lift (lt_int distance max_distance);
         if below : bool then mret distance else mret (VBool false)
     | None =>
         logging_debug net (VStr "ZipCode %s not found") [location_zip];;
         logging_debug net (VDict response) [];;
         mret (VBool false)
     end w').
Proof.
  intros Hget. unfold calculate_distance. rewrite run_bind.
  unfold try_except, get_json. rewrite Hget.
  rewrite run_lift_bind. simpl contains. cbv iota.
  destruct (response !! "distance") as [distance|] eqn:Hd.
  - rewrite bool_decide_eq_true_2 by by eexists.
    rewrite run_lift_bind. simpl. by rewrite Hd.
  - rewrite bool_decide_eq_false_2; [done|]. by intros [? ?].
Qed.

(** C10: a distance of exactly zero is below the maximum, and
    [calculate_distance] returns it; but zero is falsy, so
    [is_location_nearby] treats the location as not nearby: it logs no
    nearby airport. *)
Theorem zero_distance_is_not_nearby net name zipcode w response q w' :
  requests_get_json net (DistanceRequest (VInt HOME_ZIP) zipcode) w
  = (Ok (VDict response), w') ->
  response !! "distance" = Some (VNum q) ->
  (q == 0)%Q ->
  let read := EGet (DistanceRequest (VInt HOME_ZIP) zipcode) (Ok (VDict response)) in
  (q < inject_Z MAX_DISTANCE_MILES)%Q
  /\ calculate_distance net (VInt HOME_ZIP) zipcode MAX_DISTANCE_MILES w
     = (Ok (VNum q), [read], w')
  /\ truthy (VNum q) = false
  /\ is_location_nearby net name zipcode w = (Ok VNone, [read], w').
Proof.
  intros Hget Hd Hq read.
  assert (Hlt : (q < inject_Z MAX_DISTANCE_MILES)%Q) by (by rewrite Hq).
  assert (Hbelow : Qlt_bool q (inject_Z MAX_DISTANCE_MILES) = true).
  { unfold Qlt_bool. apply negb_true_iff, not_true_iff_false.
    rewrite Qle_bool_iff. by apply Qlt_not_le. }
  assert (Hfalsy : truthy (VNum q) = false).
  { simpl. apply negb_false_iff, Qeq_bool_iff, Hq. }
  assert (Hcalc : calculate_distance net (VInt HOME_ZIP) zipcode MAX_DISTANCE_MILES w
                  = (Ok (VNum q), [read], w')).
  { rewrite (calculate_distance_fetched _ _ _ _ _ _ _ Hget), Hd.
    rewrite run_lift_bind, lt_int_num. by rewrite Hbelow. }
  repeat split; try done.
  unfold is_location_nearby. rewrite run_bind, Hcalc, Hfalsy. reflexivity.
Qed.

(** ** The location filter *)

Lemma is_US_country e :
  is_US e = true -> exists country, getitem e "countryCode" = Ok country /\ eq_str country "US" = true.
Proof. unfold is_US. destruct (getitem e "countryCode"); [eauto | done]. Qed.

(** A US entry with the fields of a location adds its triple. *)
Lemma get_full_location_list_loop_US net e rest locations w location_id name zipcode :
  is_US e = true ->
  location_of e = Ok (location_id, name, zipcode) ->
  get_full_location_list_loop net (e :: rest) locations w =
  preceded [ELog DEBUG (VStr "Found %s in %s") [name; zipcode]]
    (get_full_location_list_loop net rest (locations ++ [(location_id, name, zipcode)]) w).
Proof.
  intros (country & Hcountry & HUS)%is_US_country Hloc. simpl.
  rewrite run_lift_bind, Hcountry, HUS.
  unfold location_of, display_name in Hloc.
  rewrite run_lift_bind.
  destruct (getitem e "shortName") as [short|]; [|done]. simpl in Hloc.
  rewrite run_bind.
  assert (Hname : exists name',
    (if negb (truthy short) then lift (getitem e "name") else mret short) w
      = (Ok name', [], w)
    /\ (if truthy short then Ok short else getitem e "name") = Ok name').
  { destruct (truthy short); simpl; [by eexists|].
    destruct (getitem e "name") as [long|]; [by eexists | done]. }
  destruct Hname as (name' & -> & Hname). rewrite Hname in Hloc. simpl in Hloc.
  rewrite preceded_nil, run_lift_bind.
  destruct (getitem e "id") as [id'|]; [|done]. simpl in Hloc.
  rewrite run_lift_bind.
  destruct (getitem e "postalCode") as [postal|]; [|done]. simpl in Hloc.
  rewrite run_lift_bind.
  destruct (slice_to 5 postal) as [zipcode'|]; [|done]. simpl in Hloc.
  by simplify_eq.
Qed.

(** Any other entry is logged and skipped. *)
Lemma get_full_location_list_loop_other net e rest locations w country :
  getitem e "countryCode" = Ok country ->
  is_US e = false ->
  get_full_location_list_loop net (e :: rest) locations w =
  preceded [ELog DEBUG (VStr "Outside the US") []]
    (get_full_location_list_loop net rest locations w).
Proof.
  intros Hcountry HUS. unfold is_US in HUS. rewrite Hcountry in HUS. simpl.
  by rewrite run_lift_bind, Hcountry, HUS.
Qed.

(** An entry the loop cannot read stops it with the exception of the
    first field it misses. *)
Lemma get_full_location_list_loop_raises net e rest locations w x :
  getitem e "countryCode" = Raise x \/ (is_US e = true /\ location_of e = Raise x) ->
  get_full_location_list_loop net (e :: rest) locations w = (Raise x, [], w).
Proof.
  intros [Hcountry | [(country & Hcountry & HUS)%is_US_country Hloc]]; simpl.
  { by rewrite run_lift_bind, Hcountry. }
  rewrite run_lift_bind, Hcountry, HUS.
  unfold location_of, display_name in Hloc.
  rewrite run_lift_bind.
  destruct (getitem e "shortName") as [short|]; simpl in Hloc; [|congruence].
  assert (Hrest : forall name (w0 : World net),
    (id' ← getitem e "id"; postal ← getitem e "postalCode";
     zipcode ← slice_to 5 postal; Ok (id', name, zipcode)) = Raise x ->
    (location_id ← lift (getitem e "id");
     postal ← lift (getitem e "postalCode");
     zipcode ← lift (slice_to 5 postal);
     logging_debug net (VStr "Found %s in %s") [name; zipcode];;
     get_full_location_list_loop net rest (locations ++ [(location_id, name, zipcode)])) w0
    = (Raise x, [], w0)).
  { intros name w0 H. rewrite run_lift_bind.
    destruct (getitem e "id") as [id'|]; simpl in H; [|congruence].
    rewrite run_lift_bind.
    destruct (getitem e "postalCode") as [postal|]; simpl in H; [|congruence].
    rewrite run_lift_bind.
    destruct (slice_to 5 postal) as [zipcode|]; simpl in H; congruence. }
  destruct (truthy short); simpl negb; cbv iota; simpl in Hloc.
  - rewrite run_ret_bind. by apply Hrest.
  - rewrite run_lift_bind.
    destruct (getitem e "name") as [long|]; simpl in Hloc; [|congruence].
    by apply Hrest.
Qed.

(** The loop stops at the first entry it cannot read: the entries before
    it only log. *)
Lemma get_full_location_list_loop_stops net before e later locations w x :
  Forall well_formed_entry before ->
  getitem e "countryCode" = Raise x \/ (is_US e = true /\ location_of e = Raise x) ->
  exists logs,
    get_full_location_list_loop net (before ++ e :: later) locations w
    = (Raise x, logs, w)
    /\ Forall is_log logs.
Proof.
  intros Hwf Hbad. revert locations.
  induction Hwf as [|e0 rest [[country Hcountry] Hloc] _ IH];
    intros locations; simpl app.
  { exists []. split; [by apply get_full_location_list_loop_raises | done]. }
  destruct (is_US e0) eqn:HUS.
  - destruct (Hloc eq_refl) as [[[location_id name] zipcode] Hloc'].
    rewrite (get_full_location_list_loop_US _ _ _ _ _ _ _ _ HUS Hloc').
    destruct (IH (locations ++ [(location_id, name, zipcode)])) as (logs & -> & Hlogs).
    eexists. split; [reflexivity|]. by apply Forall_cons_2.
  - rewrite (get_full_location_list_loop_other _ _ _ _ _ _ Hcountry HUS).
    destruct (IH locations) as (logs & -> & Hlogs).
    eexists. split; [reflexivity|]. by apply Forall_cons_2.
Qed.

(** C6, amended: take a US entry whose short name is there and is empty
    or null (falsy), and which has a long name, an identifier and a
    postal code.  When the postal code is a string (or a list), the
    triple the location filter adds for the entry carries the long name,
    with the first five characters of the postal code; when the postal
    code is anything else (a number, null), the filter raises TypeError
    at the entry.  A US entry without the key shortName makes the filter
    raise KeyError: the loop raises it on reaching the entry, and
    [get_full_location_list] ends with it whenever the entries before it
    in the answer of the directory are well formed. *)
Theorem falsy_short_name_falls_back net e :
  is_US e = true ->
  (forall short long location_id postal rest locations w,
     getitem e "shortName" = Ok short ->
     truthy short = false ->
     getitem e "name" = Ok long ->
     getitem e "id" = Ok location_id ->
     getitem e "postalCode" = Ok postal ->
     (forall zipcode,
        slice_to 5 postal = Ok zipcode ->
        get_full_location_list_loop net (e :: rest) locations w =
        preceded [ELog DEBUG (VStr "Found %s in %s") [long; zipcode]]
          (get_full_location_list_loop net rest
             (locations ++ [(location_id, long, zipcode)]) w))
     /\ ((forall s, postal <> VStr s) -> (forall l, postal <> VList l) ->
         get_full_location_list_loop net (e :: rest) locations w =
         (Raise TypeError, [], w)))
  /\ (getitem e "shortName" = Raise KeyError ->
      (forall rest locations w,
         get_full_location_list_loop net (e :: rest) locations w =
         (Raise KeyError, [], w))
      /\ (forall before later w w',
            requests_get_json net LocationListRequest w
            = (Ok (VList (before ++ e :: later)), w') ->
            Forall well_formed_entry before ->
            outcome (get_full_location_list net w) = Raise KeyError)).
Proof.
  intros HUS. split.
  - intros short long location_id postal rest locations w
      Hshort Hfalsy Hlong Hid Hpostal.
    assert (Hloc : location_of e =
                   (zipcode ← slice_to 5 postal; Ok (location_id, long, zipcode))).
    { unfold location_of, display_name.
      rewrite Hshort. simpl. rewrite Hfalsy, Hlong. simpl.
      rewrite Hid. simpl. by rewrite Hpostal. }
    split.
    + intros zipcode Hzip. apply get_full_location_list_loop_US; [done|].
      by rewrite Hloc, Hzip.
    + intros Hstr Hlist. apply get_full_location_list_loop_raises. right.
      split; [done|]. rewrite Hloc.
      destruct postal as [| | |s|l|]; try reflexivity.
      * by destruct (Hstr s).
      * by destruct (Hlist l).
  - intros Hshort.
    assert (Hloc : location_of e = Raise KeyError).
    { unfold location_of, display_name. by rewrite Hshort. }
    split.
    + intros rest locations w. apply get_full_location_list_loop_raises. by right.
    + intros before later w w' Hget Hwf. unfold get_full_location_list.
      rewrite run_bind. unfold try_except, get_json. rewrite Hget.
      rewrite run_lift_bind. simpl iter. cbv iota.
      destruct (get_full_location_list_loop_stops net before e later [] w' KeyError Hwf)
        as (logs & -> & _); [by right | done].
Qed.

Lemma get_full_location_list_loop_spec net results locations w :
  Forall well_formed_entry results ->
  exists found t,
    get_full_location_list_loop net results locations w = (Ok (locations ++ found), t, w)
    /\ Forall2 (fun e loc => location_of e = Ok loc) (List.filter is_US results) found
    /\ Forall is_log t.
Proof.
  intros Hwf. revert locations.
  induction Hwf as [|e rest [[country Hcountry] Hloc] _ IH]; intros locations.
  { exists [], []. simpl. rewrite app_nil_r. by repeat split. }
  simpl List.filter. destruct (is_US e) eqn:HUS.
  - destruct (Hloc eq_refl) as [[[location_id name] zipcode] Hloc'].
    rewrite (get_full_location_list_loop_US _ _ _ _ _ _ _ _ HUS Hloc').
    destruct (IH (locations ++ [(location_id, name, zipcode)]))
      as (found & t & -> & Hfound & Ht).
    exists ((location_id, name, zipcode) :: found), (ELog DEBUG (VStr "Found %s in %s") [name; zipcode] :: t).
    simpl. rewrite <- app_assoc. repeat split; by constructor.
  - rewrite (get_full_location_list_loop_other _ _ _ _ _ _ Hcountry HUS).
    destruct (IH locations) as (found & t & -> & Hfound & Ht).
    exists found, (ELog DEBUG (VStr "Outside the US") [] :: t).
    repeat split; by try constructor.
Qed.

(** C7: when the directory answers with a list of entries, the location
    list holds exactly one triple (identifier, display name, first five
    characters of the postal code) for each entry whose country code is
    "US", in the order of the answer; the other entries add nothing,
    whatever else they hold. *)
Theorem location_list_is_the_US_entries net w results w' :
  requests_get_json net LocationListRequest w = (Ok (VList results), w') ->
  Forall well_formed_entry results ->
  exists locations t,
    get_full_location_list net w
    = (Ok locations, EGet LocationListRequest (Ok (VList results)) :: t, w')
    /\ Forall2 (fun e loc => location_of e = Ok loc) (List.filter is_US results) locations
    /\ Forall is_log t.
Proof.
  intros Hget Hwf. unfold get_full_location_list.
  rewrite run_bind. unfold try_except, get_json. rewrite Hget.
  rewrite run_lift_bind. simpl iter. cbv iota.
  destruct (get_full_location_list_loop_spec net results [] w' Hwf)
    as (found & t & -> & Hfound & Ht).
  by exists found, t.
Qed.

(** ** Connection failures are fatal *)

Section Fatal.

Context (net : network).

Local Ltac clean_events :=
  simpl; repeat (apply Forall_cons_2; [simpl; tauto|]); apply Forall_nil_2.

Lemma fatal_of_clean {A} (m : M net A) :
  only net (fun e => ~ failed_read e) m -> always_fatal net m.
Proof. intros Hm w. left. apply Hm. Qed.

Lemma fatal_bind {A B} (m : M net A) (f : A -> M net B) :
  always_fatal net m -> (forall a, always_fatal net (f a)) -> always_fatal net (m ≫= f).
Proof.
  intros Hm Hf w. rewrite run_bind. specialize (Hm w).
  destruct (m w) as [[[a|e] t] w1]; cycle 1.
  { destruct Hm as [Hm | (Hout & before & req & msg & Htrace & Hbefore)]; [by left|].
    right. simpl in *. split; [by simplify_eq|]. by exists before, req, msg. }
  assert (Ht : Forall (fun e => ~ failed_read e) t).
  { destruct Hm as [Hm | [Hm _]]; [done | discriminate]. }
  specialize (Hf a w1). destruct (f a w1) as [[r t2] w2].
  destruct Hf as [Hclean | (Hout & before & req & msg & Htrace & Hbefore)]; simpl in *.
  - left. by apply Forall_app.
  - right. split; [done|]. exists (t ++ before), req, msg.
    split; [by rewrite Htrace, app_assoc | by apply Forall_app].
Qed.

(** The three reads of the program share this shape. *)
Lemma fatal_guarded_get r msg :
  always_fatal net (try_except net (get_json net r) (on_connection_error net msg)).
Proof.
  intros w. unfold try_except, get_json.
  destruct (requests_get_json net r w) as [[v|e] w1].
  - left. clean_events.
  - destruct e; try (left; clean_events).
    right. simpl. split; [done|]. by exists [], r, msg.
Qed.

Lemma fatal_for_each {A} (l : list A) body :
  (forall x, always_fatal net (body x)) -> always_fatal net (for_each net l body).
Proof.
  intros Hb. induction l as [|x l IH]; [by apply fatal_of_clean, only_ret|].
  simpl. by apply fatal_bind.
Qed.

Lemma fatal_lift {A} (r : result A) : always_fatal net (lift (net:=net) r).
Proof. apply fatal_of_clean, only_lift. Qed.

Lemma fatal_ret {A} (a : A) : always_fatal net (mret a).
Proof. apply fatal_of_clean, only_ret. Qed.

Lemma fatal_log lvl msg args : always_fatal net (emit net (ELog lvl msg args)).
Proof. apply fatal_of_clean, only_emit. tauto. Qed.

Lemma fatal_now_bind {B} (f : datetime -> M net B) :
  (forall t, always_fatal net (f t)) -> always_fatal net (now net ≫= f).
Proof.
  intros Hf. apply fatal_bind; [|done].
  intros w. left. unfold now. by destruct (datetime_now net w).
Qed.

Lemma fatal_check_for_openings name code test_mode :
  always_fatal net (check_for_openings net name code test_mode).
Proof.
  unfold check_for_openings. apply fatal_now_bind. intros start.
  apply fatal_bind; [apply fatal_lift|]. intros finish.
  apply fatal_bind; [apply fatal_guarded_get|]. intros results.
  apply fatal_bind; [apply fatal_lift|]. intros l.
  apply fatal_of_clean, only_check_for_openings_loop; simpl; tauto.
Qed.

Lemma fatal_calculate_distance home_zip location_zip max_distance :
  always_fatal net (calculate_distance net home_zip location_zip max_distance).
Proof.
  unfold calculate_distance.
  apply fatal_bind; [apply fatal_guarded_get|]. intros results.
  apply fatal_bind; [apply fatal_lift|]. intros [].
  - apply fatal_bind; [apply fatal_lift|]. intros distance.
    apply fatal_bind; [apply fatal_lift|]. intros []; apply fatal_ret.
  - do 2 (apply fatal_bind; [apply fatal_log|]; intros _). apply fatal_ret.
Qed.

Lemma fatal_is_location_nearby name zipcode :
  always_fatal net (is_location_nearby net name zipcode).
Proof.
  unfold is_location_nearby.
  apply fatal_bind; [apply fatal_calculate_distance|]. intros distance.
  apply fatal_bind; [|intros; apply fatal_ret].
  destruct (truthy distance); [apply fatal_log | apply fatal_ret].
Qed.

Lemma fatal_get_full_location_list : always_fatal net (get_full_location_list net).
Proof.
  unfold get_full_location_list.
  apply fatal_bind; [apply fatal_guarded_get|]. intros results.
  apply fatal_bind; [apply fatal_lift|]. intros l.
  apply fatal_of_clean, only_get_full_location_list_loop. tauto.
Qed.

Lemma fatal_check_main_locations locations args :
  always_fatal net (check_main_locations net locations args).
Proof.
  apply fatal_for_each. intros [name code]. apply fatal_check_for_openings.
Qed.

Lemma fatal_check_nearby_locations location_name locations args :
  always_fatal net (check_nearby_locations net location_name locations args).
Proof.
  apply fatal_for_each. intros [[location_id name] zipcode].
  apply fatal_bind; [apply fatal_is_location_nearby|]. intros nearby.
  destruct (truthy nearby); [|apply fatal_ret].
  destruct location_name; [apply fatal_check_for_openings|].
  apply fatal_of_clean, only_raise.
Qed.

Lemma fatal_main_with locations args : always_fatal net (main_with net locations args).
Proof.
  unfold main_with.
  apply fatal_bind.
  { destruct (verbose args); [|apply fatal_ret].
    apply fatal_of_clean, only_emit. tauto. }
  intros _. apply fatal_bind; [apply fatal_log|]. intros _.
  apply fatal_bind; [apply fatal_check_main_locations|]. intros _.
  apply fatal_bind; [apply fatal_log|]. intros _.
  apply fatal_bind; [apply fatal_get_full_location_list|]. intros locs.
  apply fatal_bind; [apply fatal_log|]. intros _.
  apply fatal_check_nearby_locations.
Qed.

End Fatal.

(** Where the failed read of a fatal run is. *)
Lemma failed_read_position before e later t req msg :
  failed_read e ->
  Forall (fun e => ~ failed_read e) t ->
  before ++ e :: later = t ++ [EGet req (Raise ConnectionError); ELog ERROR (VStr msg) []] ->
  before = t /\ e = EGet req (Raise ConnectionError) /\ later = [ELog ERROR (VStr msg) []].
Proof.
  intros He. revert t.
  induction before as [|y before IH]; intros [|x t] Ht Heq; simplify_eq/=.
  - done.
  - by apply Forall_cons in Ht as [? _].
  - destruct before as [|z before]; simplify_eq/=; [done|].
    by destruct before.
  - apply Forall_cons in Ht as [_ Ht].
    by destruct (IH t Ht) as (-> & -> & ->).
Qed.

(** [main], from its first loop on. *)
Lemma main_with_run net locations args w :
  exists t0,
    Forall is_log_or_config t0
    /\ main_with net locations args w =
       preceded t0
         ((check_main_locations net locations args;;
           logging_info net "Find locations within %d miles of %d"
             [VInt MAX_DISTANCE_MILES; VInt HOME_ZIP];;
           locations' ← get_full_location_list net;
           logging_info net "Found %d locations" [VInt (Z.of_nat (length locations'))];;
           check_nearby_locations net (last (fst <$> locations)) locations' args) w).
Proof.
  unfold main_with. destruct (verbose args).
  - exists [EBasicConfig; ELog INFO (VStr "Checking main locations") []].
    split; [by repeat apply Forall_cons_2|].
    by rewrite run_emit_bind, run_logging_info_bind, preceded_preceded.
  - exists [ELog INFO (VStr "Checking main locations") []].
    split; [by repeat apply Forall_cons_2|].
    by rewrite run_ret_bind, run_logging_info_bind.
Qed.

(** C9: when a read of the scheduler, of the directory or of the
    distance service fails to connect, [main] logs the failure and
    exits at once with status 1: the failed read is the first one of
    the run, one ERROR log follows it, and nothing else.  A failure in
    the first loop leaves the run without any read of the directory or
    of the distance service. *)
Theorem connection_failure_is_fatal net locations args w before r later :
  let run := main_with net locations args w in
  trace run = before ++ EGet r (Raise ConnectionError) :: later ->
  outcome run = Raise (SystemExit 1)
  /\ (exists msg, later = [ELog ERROR (VStr msg) []])
  /\ Forall (fun e => ~ failed_read e) before
  /\ (Exists failed_read (trace (check_main_locations net locations args w)) ->
      Forall first_loop_event (trace run)).
Proof.
  intros run Htrace.
  destruct (fatal_main_with net locations args w)
    as [Hclean | (Hout & t & req & msg & Ht & Hbefore)]; fold run in Hclean || fold run in Hout, Ht.
  { unfold trace in Htrace. rewrite Htrace in Hclean.
    apply Forall_app in Hclean as [_ Hclean].
    apply Forall_cons in Hclean as [Hclean _]. by destruct Hclean. }
  unfold trace in Htrace. rewrite Htrace in Ht.
  apply failed_read_position in Ht as (-> & _ & ->); [|done..].
  repeat split; [done | by eexists | done |].
  intros Hfailed. subst run.
  destruct (main_with_run net locations args w) as (t0 & Ht0 & ->).
  rewrite run_bind.
  pose proof (fatal_check_main_locations net locations args w) as Hfirst.
  pose proof (only_check_main_locations net first_loop_event locations args) as Honly.
  specialize (Honly ltac:(done) ltac:(done) ltac:(done) ltac:(done) w).
  destruct (check_main_locations net locations args w) as [[[[]|e] t1] w1];
    simpl in Hfailed, Hfirst, Honly.
  - destruct Hfirst as [Hclean | [? _]]; [|done].
    apply Exists_exists in Hfailed as (x & Hx & Hfx).
    by eapply Forall_forall in Hclean.
  - simpl. apply Forall_app. split; [|done].
    eapply Forall_impl; [exact Ht0|]. by intros [].
Qed.

(** ** Runs on the sample answers *)

(** Two closed slots: one read, one log. *)
Lemma no_opening_no_message_on_closed_slots :
  Forall (fun r => no_opening r = true) closed_slots
  /\ let run := check_for_openings (sample_network closed_slots [] 150)
                  "PIA" (VInt 11002) false tt in
     run = (Ok tt,
            [EGet (SlotsRequest (VInt 11002) "2024-06-01T12:00" "2024-11-30T12:00")
               (Ok (VList closed_slots));
             ELog INFO (VStr "No openings for PIA") []],
            tt)
     /\ printed (trace run) = []
     /\ posted (trace run) = [].
Proof.
  assert (Hclosed : Forall (fun r => no_opening r = true) closed_slots).
  { repeat (apply Forall_cons_2; [vm_compute; reflexivity|]). apply Forall_nil_2. }
  split; [exact Hclosed|].
  apply (no_opening_no_message (sample_network closed_slots [] 150)
           "PIA" (VInt 11002) false tt noon tt
           (mk_datetime 2024 11 30 12 0 0 0) closed_slots tt).
  - reflexivity.
  - vm_compute. reflexivity.
  - reflexivity.
  - exact Hclosed.
Defined.

(** The second record of [mixed_slots] is announced; the third, open
    with an earlier timestamp, is not looked at. *)
Lemma first_open_slot_is_announced_on_mixed_slots :
  Forall (fun r => no_opening r = true) [slot 0 "2024-06-03T08:00"]
  /\ has_opening (slot 1 "2024-07-01T09:00") = true
  /\ has_opening (slot 2 "2024-06-15T10:30") = true
  /\ check_for_openings (sample_network mixed_slots [] 150) "PIA" (VInt 11002) true tt =
     (Ok tt,
      [EGet (SlotsRequest (VInt 11002) "2024-06-01T12:00" "2024-11-30T12:00")
         (Ok (VList mixed_slots));
       ELog INFO (VStr "Opening found for PIA") [];
       EPrint "New appointment slot open at PIA: Monday, July 01, 2024 at 09:00 AM"],
      tt).
Proof.
  assert (Hclosed : Forall (fun r => no_opening r = true) [slot 0 "2024-06-03T08:00"]).
  { apply Forall_cons_2; [vm_compute; reflexivity | apply Forall_nil_2]. }
  assert (Hopen : has_opening (slot 1 "2024-07-01T09:00") = true).
  { vm_compute. reflexivity. }
  split; [exact Hclosed|]. split; [exact Hopen|].
  split; [vm_compute; reflexivity|].
  destruct (first_open_slot_is_announced (sample_network mixed_slots [] 150)
              "PIA" (VInt 11002) true tt noon tt (mk_datetime 2024 11 30 12 0 0 0)
              [slot 0 "2024-06-03T08:00"] (slot 1 "2024-07-01T09:00")
              [slot 2 "2024-06-15T10:30"] tt) as [_ Hannounce].
  - reflexivity.
  - vm_compute. reflexivity.
  - reflexivity.
  - exact Hclosed.
  - exact Hopen.
  - rewrite (Hannounce (VStr "2024-07-01T09:00") (mk_datetime 2024 7 1 9 0 0 0)).
    + vm_compute. reflexivity.
    + vm_compute. reflexivity.
    + vm_compute. reflexivity.
Defined.

(** The end-to-end scenario, with a directory of two entries behind it. *)
Lemma end_to_end_test_mode_on_sample :
  let net := sample_network [slot 1 "2024-07-01T09:00"] [kansas_city; toronto] 150 in
  let run := main_with net [("PIA", 11002)] (mk_Args true false) tt in
  printed (trace run) =
    ["New appointment slot open at PIA: Monday, July 01, 2024 at 09:00 AM"]
  /\ posted (trace run) = [].
Proof.
  apply (end_to_end_test_mode
           (sample_network [slot 1 "2024-07-01T09:00"] [kansas_city; toronto] 150)
           (mk_Args true false) tt noon tt (mk_datetime 2024 11 30 12 0 0 0) tt).
  - reflexivity.
  - reflexivity.
  - vm_compute. reflexivity.
  - reflexivity.
Defined.

(** A distance of zero miles. *)
Lemma zero_distance_is_not_nearby_on_sample :
  let net := sample_network [] [kansas_city] 0 in
  let name := VStr "Kansas City Enrollment Center" in
  let zipcode := VStr "64153" in
  let read := EGet (DistanceRequest (VInt HOME_ZIP) zipcode) (Ok (distance_answer 0)) in
  (inject_Z 0 < inject_Z MAX_DISTANCE_MILES)%Q
  /\ calculate_distance net (VInt HOME_ZIP) zipcode MAX_DISTANCE_MILES tt
     = (Ok (VInt 0), [read], tt)
  /\ truthy (VInt 0) = false
  /\ is_location_nearby net name zipcode tt = (Ok VNone, [read], tt).
Proof.
  apply (zero_distance_is_not_nearby (sample_network [] [kansas_city] 0)
           (VStr "Kansas City Enrollment Center") (VStr "64153") tt
           {[ "distance" := VInt 0 ]} (inject_Z 0) tt).
  - reflexivity.
  - vm_compute. reflexivity.
  - reflexivity.
Defined.

(** Kansas City has an empty short name: the list holds its long name.
    With a number for postal code, the same entry raises TypeError. *)
Lemma falsy_short_name_falls_back_on_sample :
  is_US kansas_city = true
  /\ getitem kansas_city "shortName" = Ok (VStr "")
  /\ get_full_location_list_loop (sample_network [] [kansas_city] 150)
       [kansas_city] [] tt =
     (Ok [(VInt 7540, VStr "Kansas City Enrollment Center", VStr "64153")],
      [ELog DEBUG (VStr "Found %s in %s")
         [VStr "Kansas City Enrollment Center"; VStr "64153"]],
      tt)
  /\ is_US numeric_postal_code = true
  /\ getitem numeric_postal_code "postalCode" = Ok (VInt 64153)
  /\ get_full_location_list_loop (sample_network [] [numeric_postal_code] 150)
       [numeric_postal_code] [] tt =
     (Raise TypeError, [], tt).
Proof.
  assert (HUS : is_US kansas_city = true) by reflexivity.
  assert (HUS' : is_US numeric_postal_code = true) by reflexivity.
  split; [exact HUS|]. split; [vm_compute; reflexivity|]. split.
  { destruct (falsy_short_name_falls_back (sample_network [] [kansas_city] 150)
                kansas_city HUS) as [Hfalls _].
    destruct (Hfalls (VStr "") (VStr "Kansas City Enrollment Center")
                (VInt 7540) (VStr "641531234") [] [] tt) as [Hadds _].
    - vm_compute. reflexivity.
    - reflexivity.
    - vm_compute. reflexivity.
    - vm_compute. reflexivity.
    - vm_compute. reflexivity.
    - rewrite (Hadds (VStr "64153")); reflexivity. }
  split; [exact HUS'|]. split; [vm_compute; reflexivity|].
  destruct (falsy_short_name_falls_back (sample_network [] [numeric_postal_code] 150)
              numeric_postal_code HUS') as [Hfalls _].
  destruct (Hfalls (VStr "") (VStr "Kansas City Enrollment Center")
              (VInt 7540) (VInt 64153) [] [] tt) as [_ Hraises].
  - vm_compute. reflexivity.
  - reflexivity.
  - vm_compute. reflexivity.
  - vm_compute. reflexivity.
  - vm_compute. reflexivity.
  - apply Hraises; intros ?; discriminate.
Defined.

(** C6 as stated fails: the entry [no_short_name] has country code
    "US", a long name and no [shortName] key, and the location filter
    raises [KeyError] on it instead of falling back to the long name. *)
Lemma missing_short_name_raises :
  is_US no_short_name = true
  /\ getitem no_short_name "shortName" = Raise KeyError
  /\ getitem no_short_name "name" = Ok (VStr "Kansas City Enrollment Center")
  /\ get_full_location_list (sample_network [] [no_short_name] 150) tt =
     (Raise KeyError, [EGet LocationListRequest (Ok (VList [no_short_name]))], tt).
Proof. repeat split; vm_compute; reflexivity. Qed.

(** Of Kansas City and Toronto, the list keeps Kansas City. *)
Lemma location_list_is_the_US_entries_on_sample :
  Forall well_formed_entry [kansas_city; toronto]
  /\ List.filter is_US [kansas_city; toronto] = [kansas_city]
  /\ exists locations t,
       get_full_location_list (sample_network [] [kansas_city; toronto] 150) tt
       = (Ok locations,
          EGet LocationListRequest (Ok (VList [kansas_city; toronto])) :: t, tt)
       /\ Forall2 (fun e loc => location_of e = Ok loc)
            (List.filter is_US [kansas_city; toronto]) locations
       /\ Forall is_log t.
Proof.
  assert (Hwf : Forall well_formed_entry [kansas_city; toronto]).
  { repeat (apply Forall_cons_2;
            [split; [eexists; vm_compute; reflexivity
                    |intros _; eexists; vm_compute; reflexivity]|]).
    apply Forall_nil_2. }
  split; [exact Hwf|]. split; [vm_compute; reflexivity|].
  apply (location_list_is_the_US_entries
           (sample_network [] [kansas_city; toronto] 150) tt [kansas_city; toronto] tt).
  - reflexivity.
  - exact Hwf.
Defined.

(** Offline, [main] stops at its first read. *)
Lemma connection_failure_is_fatal_when_offline :
  let run := main offline_network (mk_Args false false) tt in
  let read := EGet (SlotsRequest (VInt 11002) "2024-06-01T12:00" "2024-11-30T12:00")
                (Raise ConnectionError) in
  trace run = [ELog INFO (VStr "Checking main locations") []] ++ read
                :: [ELog ERROR (VStr "Could not connect to scheduler API") []]
  /\ outcome run = Raise (SystemExit 1)
  /\ Forall first_loop_event (trace run).
Proof.
  intros run read.
  assert (Htrace : trace run =
    [ELog INFO (VStr "Checking main locations") []] ++ read
      :: [ELog ERROR (VStr "Could not connect to scheduler API") []]).
  { vm_compute. reflexivity. }
  split; [exact Htrace|].
  destruct (connection_failure_is_fatal offline_network LOCATIONS (mk_Args false false) tt
              [ELog INFO (VStr "Checking main locations") []]
              (SlotsRequest (VInt 11002) "2024-06-01T12:00" "2024-11-30T12:00")
              [ELog ERROR (VStr "Could not connect to scheduler API") []] Htrace)
    as (Hout & _ & _ & Hfirst).
  split; [exact Hout|].
  apply Hfirst. apply Exists_cons_hd. exact I.
Defined.

(** ** What the nearby scan misses *)

(** The scan for nearby locations never reads the scheduler: its events
    are reads of the distance service and logs, whatever the locations
    and the distances. *)
Theorem nearby_scan_never_checks_openings net location_name locations args w :
  Forall scan_event (trace (check_nearby_locations net location_name locations args w)).
Proof. by apply only_check_nearby_locations. Qed.

(** What [is_location_nearby] does with an answer of the distance
    service: a distance below the maximum that is not zero is logged as
    nearby, a distance at or above the maximum is not, and an answer
    without a distance is logged as an unknown zip code; no case raises,
    and every case returns [None]. *)
Theorem distance_filter net name zipcode w response w' :
  requests_get_json net (DistanceRequest (VInt HOME_ZIP) zipcode) w
  = (Ok (VDict response), w') ->
  let read := EGet (DistanceRequest (VInt HOME_ZIP) zipcode) (Ok (VDict response)) in
  (forall q, response !! "distance" = Some (VNum q) ->
             (q < inject_Z MAX_DISTANCE_MILES)%Q -> ~ (q == 0)%Q ->
             is_location_nearby net name zipcode w =
             (Ok VNone,
              [read; ELog INFO (VStr "*Nearby airport %s is in %s. %f miles away")
                       [name; zipcode; VNum q]], w'))
  /\ (forall q, response !! "distance" = Some (VNum q) ->
                (inject_Z MAX_DISTANCE_MILES <= q)%Q ->
                is_location_nearby net name zipcode w = (Ok VNone, [read], w'))
  /\ (response !! "distance" = None ->
      is_location_nearby net name zipcode w =
      (Ok VNone,
       [read; ELog DEBUG (VStr "ZipCode %s not found") [zipcode];
        ELog DEBUG (VDict response) []], w')).
Proof.
  intros Hget read. unfold is_location_nearby.
  repeat split.
  - intros q Hd Hlt Hq. rewrite run_bind.
    rewrite (calculate_distance_fetched _ _ _ _ _ _ _ Hget), Hd.
    rewrite run_lift_bind, lt_int_num.
    assert (Hbelow : Qlt_bool q (inject_Z MAX_DISTANCE_MILES) = true).
    { unfold Qlt_bool. apply negb_true_iff, not_true_iff_false.
      rewrite Qle_bool_iff. by apply Qlt_not_le. }
    rewrite Hbelow.
    assert (Htruthy : truthy (VNum q) = true).
    { simpl. apply negb_true_iff, not_true_iff_false. by rewrite Qeq_bool_iff. }
    simpl in Htruthy |- *. by rewrite Htruthy.
  - intros q Hd Hle. rewrite run_bind.
    rewrite (calculate_distance_fetched _ _ _ _ _ _ _ Hget), Hd.
    rewrite run_lift_bind, lt_int_num.
    assert (Hbelow : Qlt_bool q (inject_Z MAX_DISTANCE_MILES) = false).
    { unfold Qlt_bool. apply negb_false_iff. by rewrite Qle_bool_iff. }
    by rewrite Hbelow.
  - intros Hd. rewrite run_bind.
    by rewrite (calculate_distance_fetched _ _ _ _ _ _ _ Hget), Hd.
Qed.

(** Kansas City, 150 miles away, is logged as nearby. *)
Lemma distance_filter_on_sample :
  let net := sample_network [] [kansas_city] 150 in
  let name := VStr "Kansas City Enrollment Center" in
  let zipcode := VStr "64153" in
  let read := EGet (DistanceRequest (VInt HOME_ZIP) zipcode) (Ok (distance_answer 150)) in
  is_location_nearby net name zipcode tt =
  (Ok VNone,
   [read; ELog INFO (VStr "*Nearby airport %s is in %s. %f miles away")
            [name; zipcode; VInt 150]], tt).
Proof.
  destruct (distance_filter (sample_network [] [kansas_city] 150)
              (VStr "Kansas City Enrollment Center") (VStr "64153") tt
              {[ "distance" := VInt 150 ]} tt eq_refl) as [Hnear _].
  apply (Hnear (inject_Z 150)).
  - vm_compute. reflexivity.
  - reflexivity.
  - discriminate.
Defined.

(** C1 fails on the code: Kansas City is 150 miles away, below the
    maximum, and [is_location_nearby] logs it as nearby; but it returns
    [None], so [main] never calls [check_for_openings] for it: the run
    reads the scheduler for the two fixed locations only. *)
Theorem nearby_location_is_never_checked :
  let net := sample_network closed_slots [kansas_city] 150 in
  let name := VStr "Kansas City Enrollment Center" in
  let zipcode := VStr "64153" in
  lt_int (VInt 150) MAX_DISTANCE_MILES = Ok true
  /\ is_location_nearby net name zipcode tt =
     (Ok VNone,
      [EGet (DistanceRequest (VInt HOME_ZIP) zipcode) (Ok (distance_answer 150));
       ELog INFO (VStr "*Nearby airport %s is in %s. %f miles away")
         [name; zipcode; VInt 150]], tt)
  /\ outcome (main net (mk_Args true false) tt) = Ok tt
  /\ requested (trace (main net (mk_Args true false) tt)) =
     [SlotsRequest (VInt 11002) "2024-06-01T12:00" "2024-11-30T12:00";
      SlotsRequest (VInt 12021) "2024-06-01T12:00" "2024-11-30T12:00";
      LocationListRequest;
      DistanceRequest (VInt HOME_ZIP) zipcode].
Proof. repeat split; vm_compute; reflexivity. Qed.

(** C5 fails on the code: a distance of 0 is below the maximum, and the
    location is still not treated as nearby, because [calculate_distance]
    returns the distance itself and [is_location_nearby] tests its truth
    value. *)
Theorem zero_distance_answer_is_dropped :
  let net := sample_network [] [] 0 in
  let name := VStr "Home Enrollment Center" in
  let zipcode := VStr "63021" in
  let read := EGet (DistanceRequest (VInt HOME_ZIP) zipcode) (Ok (distance_answer 0)) in
  lt_int (VInt 0) MAX_DISTANCE_MILES = Ok true
  /\ calculate_distance net (VInt HOME_ZIP) zipcode MAX_DISTANCE_MILES tt
     = (Ok (VInt 0), [read], tt)
  /\ is_location_nearby net name zipcode tt = (Ok VNone, [read], tt).
Proof. repeat split; vm_compute; reflexivity. Qed.


(** ** How often a run announces *)

Section Counting.

Context (net : network) {B : Type} (g : event -> option B).

Lemma at_most_le {A} n k (m : M net A) :
  (n <= k)%nat -> at_most net g n m -> at_most net g k m.
Proof. intros Hle Hm w. specialize (Hm w). lia. Qed.

Lemma at_most_ret {A} (a : A) : at_most net g 0 (mret a).
Proof. intros w. reflexivity. Qed.

Lemma at_most_lift {A} (r : result A) : at_most net g 0 (lift (net:=net) r).
Proof. intros w. reflexivity. Qed.

Lemma at_most_raise {A} e : at_most net g 0 (@raise net A e).
Proof. intros w. reflexivity. Qed.

Lemma at_most_emit e : at_most net g 1 (emit net e).
Proof. intros w. simpl. destruct (g e); simpl; lia. Qed.

Lemma at_most_emit_none e : g e = None -> at_most net g 0 (emit net e).
Proof. intros He w. simpl. by rewrite He. Qed.

Lemma at_most_bind {A C} n k (m : M net A) (f : A -> M net C) :
  at_most net g n m -> (forall a, at_most net g k (f a)) ->
  at_most net g (n + k) (m ≫= f).
Proof.
  intros Hm Hf w. rewrite run_bind. specialize (Hm w).
  destruct (m w) as [[[a|e] t] w1]; unfold trace in Hm |- *; simpl in Hm |- *; [|lia].
  fold (trace (preceded t (f a w1))). rewrite trace_preceded, omap_app, length_app.
  specialize (Hf a w1). lia.
Qed.

Lemma at_most_try_except {A} n k (m : M net A) handler :
  at_most net g n m -> (forall e h, handler e = Some h -> at_most net g k h) ->
  at_most net g (n + k) (try_except net m handler).
Proof.
  intros Hm Hh w. unfold try_except. specialize (Hm w).
  destruct (m w) as [[[a|e] t] w1]; unfold trace in Hm |- *; simpl in Hm |- *; [lia|].
  destruct (handler e) as [h|] eqn:He; simpl; [|lia].
  fold (trace (preceded t (h w1))). rewrite trace_preceded, omap_app, length_app.
  specialize (Hh e h He w1). lia.
Qed.

Lemma at_most_for_each {A} k (l : list A) body :
  (forall x, at_most net g k (body x)) ->
  at_most net g (length l * k) (for_each net l body).
Proof.
  intros Hb. induction l as [|x l IH]; [apply at_most_ret|].
  simpl. by apply at_most_bind.
Qed.

Lemma at_most_of_only {A} (P : event -> Prop) (m : M net A) :
  (forall e, P e -> g e = None) -> only net P m -> at_most net g 0 m.
Proof.
  intros HP Hm w. specialize (Hm w).
  induction Hm as [|e t He _ IH]; [done|].
  simpl. by rewrite (HP e He).
Qed.

End Counting.

Lemma logs_announce_nothing t :
  Forall is_log t -> printed t = [] /\ posted t = [] /\ requested t = [].
Proof.
  induction 1 as [|e t He _ (IH1 & IH2 & IH3)]; [done|].
  by destruct e.
Qed.

(** The events of [tweet]: the posting call, then logs. *)
Lemma tweet_trace net message w :
  exists logs,
    trace (tweet net message w)
    = EPostUpdate message (PostUpdate net message w).1 :: logs
    /\ Forall is_log logs.
Proof.
  unfold tweet, try_except. rewrite run_bind. unfold api_PostUpdate.
  destruct (PostUpdate net message w) as [answer w']. simpl fst.
  destruct answer as [[]|e].
  { eexists. split; [reflexivity|]. by apply Forall_cons_2. }
  destruct e as [| | | | | |e_message| | |];
    try (exists []; split; [reflexivity | apply Forall_nil_2]).
  match goal with
  | |- context [preceded _ (?h w')] =>
      assert (Hh : only net is_log h)
  end.
  { apply only_bind; [apply only_lift|]. intros n.
    apply only_bind.
    { destruct (n =? 1)%nat; [|apply only_ret].
      do 2 (apply only_bind; [apply only_lift|]; intros ?). apply only_ret. }
    intros []; [by apply only_emit | apply only_raise]. }
  rewrite trace_preceded. eexists. split; [reflexivity | apply Hh].
Qed.

(** X3: [tweet] calls the posting API exactly once with its message, in
    every case: no retry after a rejection, no call skipped.  It prints
    nothing and reads nothing.  An exception of [PostUpdate] that is
    not a [TwitterError] leaves [tweet] as it came. *)
Theorem tweet_posts_exactly_once net message w :
  let run := tweet net message w in
  posted (trace run) = [message]
  /\ printed (trace run) = []
  /\ requested (trace run) = []
  /\ forall e, (PostUpdate net message w).1 = Raise e ->
               (forall e_message, e <> TwitterError e_message) ->
               run = (Raise e, [EPostUpdate message (Raise e)], (PostUpdate net message w).2).
Proof.
  intros run. subst run.
  destruct (tweet_trace net message w) as (logs & -> & Hlogs).
  destruct (logs_announce_nothing logs Hlogs) as (Hp & Hq & Hr).
  repeat split; simpl; [by rewrite Hq | done | done |].
  intros e He Hne. unfold tweet, try_except. rewrite run_bind.
  unfold api_PostUpdate.
  destruct (PostUpdate net message w) as [answer w']. simpl in He |- *. subst answer.
  destruct e; try done. by destruct (Hne message0).
Qed.

Section Announcing.

Context (net : network) {B : Type} (g : event -> option B).
Context (Hlog : forall lvl m args, g (ELog lvl m args) = None).

Lemma at_most_tweet_1 message : at_most net g 1 (tweet net message).
Proof.
  intros w. destruct (tweet_trace net message w) as (logs & -> & Hlogs).
  assert (Hnil : omap g logs = []).
  { induction Hlogs as [|e t He _ IH]; [done|].
    destruct e; try done. simpl. by rewrite Hlog. }
  match goal with
  | |- context [omap g (?e :: logs)] =>
      change (e :: logs) with ([e] ++ logs)
  end.
  rewrite omap_app, Hnil, app_nil_r. simpl. destruct (g _); simpl; lia.
Qed.

Lemma at_most_tweet_0 message :
  (forall m a, g (EPostUpdate m a) = None) -> at_most net g 0 (tweet net message).
Proof.
  intros Hpost. apply (at_most_of_only net g (fun e => g e = None)); [done|].
  by apply only_tweet.
Qed.

Lemma at_most_guarded_get r msg :
  (forall a, g (EGet r a) = None) ->
  at_most net g 0 (try_except net (get_json net r) (on_connection_error net msg)).
Proof.
  intros Hget. apply (at_most_of_only net g (fun e => g e = None)); [done|].
  apply only_try_except; [by apply only_get_json|].
  intros e k. by apply only_on_connection_error.
Qed.

Lemma at_most_check_for_openings_loop k name (test_mode : bool) results :
  (forall message,
     at_most net g k
       (if test_mode then print net message
        else logging_info net ("Tweeting: " +:+ message) [];; tweet net message)) ->
  at_most net g k (check_for_openings_loop net name test_mode results).
Proof.
  intros Hannounce. induction results as [|r rest IH]; simpl.
  { apply (at_most_le net g 0); [lia | by apply at_most_emit_none]. }
  apply (at_most_bind net g 0 k); [apply at_most_lift|]. intros active.
  apply (at_most_bind net g 0 k); [apply at_most_lift|]. intros []; [|done].
  apply (at_most_bind net g 0 k); [by apply at_most_emit_none|]. intros _.
  apply (at_most_bind net g 0 k); [apply at_most_lift|]. intros stamp.
  apply (at_most_bind net g 0 k); [apply at_most_lift|]. intros timestamp.
  apply Hannounce.
Qed.

Lemma at_most_check_for_openings k name code (test_mode : bool) :
  (forall s f a, g (EGet (SlotsRequest code s f) a) = None) ->
  (forall message,
     at_most net g k
       (if test_mode then print net message
        else logging_info net ("Tweeting: " +:+ message) [];; tweet net message)) ->
  at_most net g k (check_for_openings net name code test_mode).
Proof.
  intros Hget Hannounce. unfold check_for_openings.
  apply (at_most_bind net g 0 k).
  { intros w. unfold now. by destruct (datetime_now net w). }
  intros start. apply (at_most_bind net g 0 k); [apply at_most_lift|]. intros finish.
  apply (at_most_bind net g 0 k); [by apply at_most_guarded_get|]. intros results.
  apply (at_most_bind net g 0 k); [apply at_most_lift|]. intros l.
  by apply at_most_check_for_openings_loop.
Qed.

End Announcing.

(** What the announcing step holds, by mode. *)
Lemma at_most_one_print net (test_mode : bool) message :
  at_most net print_of (if test_mode then 1 else 0)%nat
    (if test_mode then print net message
     else logging_info net ("Tweeting: " +:+ message) [];; tweet net message).
Proof.
  destruct test_mode; [apply at_most_emit|].
  apply (at_most_bind net print_of 0 0); [by apply at_most_emit_none|].
  intros _. by apply at_most_tweet_0.
Qed.

Lemma at_most_one_post net (test_mode : bool) message :
  at_most net post_of (if test_mode then 0 else 1)%nat
    (if test_mode then print net message
     else logging_info net ("Tweeting: " +:+ message) [];; tweet net message).
Proof.
  destruct test_mode; [by apply at_most_emit_none|].
  apply (at_most_bind net post_of 0 1); [by apply at_most_emit_none|].
  intros _. by apply at_most_tweet_1.
Qed.

Lemma omap_nil_length {A C} (f : A -> option C) (l : list A) :
  (length (omap f l) <= 0)%nat -> omap f l = [].
Proof. destruct (omap f l); [done | simpl; lia]. Qed.

(** X4: one call of [check_for_openings] announces at most once, and by
    the channel of its mode only: in test mode it never posts, otherwise
    it never prints.  It reads the network at most once, and that read
    is of the scheduler for its location code. *)
Theorem check_for_openings_announces_once net name code test_mode w :
  let t := trace (check_for_openings net name code test_mode w) in
  (length (printed t) + length (posted t) <= 1)%nat
  /\ (test_mode = true -> posted t = [])
  /\ (test_mode = false -> printed t = [])
  /\ (length (requested t) <= 1)%nat
  /\ (forall r, r ∈ requested t -> exists start finish, r = SlotsRequest code start finish).
Proof.
  intros t.
  pose proof (at_most_check_for_openings net print_of ltac:(done)
                (if test_mode then 1 else 0)%nat name code test_mode ltac:(done)
                (at_most_one_print net test_mode) w) as Hprint.
  pose proof (at_most_check_for_openings net post_of ltac:(done)
                (if test_mode then 0 else 1)%nat name code test_mode ltac:(done)
                (at_most_one_post net test_mode) w) as Hpost.
  fold t in Hprint, Hpost.
  change (omap print_of t) with (printed t) in Hprint.
  change (omap post_of t) with (posted t) in Hpost.
  split; [destruct test_mode; lia|].
  split; [intros ->; by apply omap_nil_length|].
  split; [intros ->; by apply omap_nil_length|].
  assert (Hshape : t = [] \/ exists r a rest,
            t = EGet r a :: rest
            /\ (exists start finish, r = SlotsRequest code start finish)
            /\ requested rest = []).
  { subst t. unfold check_for_openings. rewrite run_bind. unfold now.
    destruct (datetime_now net w) as [start w1]. rewrite preceded_nil, run_lift_bind.
    destruct (add_weeks start DELTA) as [finish|]; [|by left].
    right. cbv beta iota zeta. rewrite run_bind. unfold try_except, get_json.
    destruct (requests_get_json net _ w1) as [[v|e] w2].
    - rewrite trace_preceded. do 3 eexists. split; [reflexivity|].
      split; [by eauto|].
      rewrite run_lift_bind. destruct (iter v) as [l|]; [|done].
      pose proof (only_check_for_openings_loop net
                    (fun e => match e with EGet _ _ => False | _ => True end)
                    name test_mode l ltac:(done) ltac:(done) ltac:(done) w2) as Honly.
      induction Honly as [|e t He _ IH]; [done|]. by destruct e.
    - destruct e; try (do 3 eexists; split; [reflexivity|]; split; [by eauto | done]). }
  destruct Hshape as [-> | (r & a & rest & -> & Hr & Hrest)].
  { split; [simpl; lia | intros r Hr; by apply elem_of_nil in Hr]. }
  change (requested (EGet r a :: rest)) with (r :: requested rest).
  rewrite Hrest. split; [simpl; lia|].
  intros r' ->%list_elem_of_singleton. exact Hr.
Qed.

Lemma at_most_main_with net {B} (g : event -> option B) k locations args :
  (forall lvl m a, g (ELog lvl m a) = None) ->
  g EBasicConfig = None ->
  (forall r a, g (EGet r a) = None) ->
  (forall message,
     at_most net g k
       (if test args then print net message
        else logging_info net ("Tweeting: " +:+ message) [];; tweet net message)) ->
  at_most net g (length locations * k) (main_with net locations args).
Proof.
  intros Hlog Hcfg Hget Hannounce w.
  destruct (main_with_run net locations args w) as (t0 & Ht0 & ->).
  rewrite trace_preceded, omap_app, length_app.
  assert (omap g t0 = []) as ->.
  { induction Ht0 as [|e t He _ IH]; [done|].
    destruct e; try done; simpl; by rewrite ?Hlog, ?Hcfg. }
  simpl. rewrite <- (Nat.add_0_r (length locations * k)).
  apply (at_most_bind net g (length locations * k) 0).
  - apply at_most_for_each. intros [name code].
    by apply at_most_check_for_openings.
  - intros _. apply (at_most_of_only net g scan_event).
    + intros [[]| | | |]; by try done.
    + apply only_scan_after_first_loop.
Qed.

(** X5: a run of [main] announces at most once per fixed location, and
    never for a nearby one; in test mode it never calls the posting API,
    and without it it never prints. *)
Theorem main_announces_once_per_fixed_location net locations args w :
  let t := trace (main_with net locations args w) in
  (length (printed t) + length (posted t) <= length locations)%nat
  /\ (test args = true -> posted t = [])
  /\ (test args = false -> printed t = []).
Proof.
  intros t.
  pose proof (at_most_main_with net print_of (if test args then 1 else 0)%nat
                locations args ltac:(done) ltac:(done) ltac:(done)
                (at_most_one_print net (test args)) w) as Hprint.
  pose proof (at_most_main_with net post_of (if test args then 0 else 1)%nat
                locations args ltac:(done) ltac:(done) ltac:(done)
                (at_most_one_post net (test args)) w) as Hpost.
  fold t in Hprint, Hpost.
  change (omap print_of t) with (printed t) in Hprint.
  change (omap post_of t) with (posted t) in Hpost.
  destruct (test args).
  - rewrite Nat.mul_0_r in Hpost. rewrite Nat.mul_1_r in Hprint.
    split; [lia|]. split; [intros _; by apply omap_nil_length | done].
  - rewrite Nat.mul_0_r in Hprint. rewrite Nat.mul_1_r in Hpost.
    split; [lia|]. split; [done | intros _; by apply omap_nil_length].
Qed.

(** X11: [--verbose] changes nothing but the logging configuration: the
    run with it is the run without it after [logging.basicConfig]. *)
Theorem verbose_only_configures_logging net locations test_mode w :
  main_with net locations (mk_Args test_mode true) w =
  preceded [EBasicConfig] (main_with net locations (mk_Args test_mode false) w).
Proof.
  unfold main_with. simpl verbose. cbv iota.
  by rewrite run_emit_bind, run_ret_bind.
Qed.


(** ** The order of the reads *)

Lemma reads_first_guarded_get net r msg (P : event -> Prop) :
  (forall lvl m a, P (ELog lvl m a)) ->
  reads_first net r P (try_except net (get_json net r) (on_connection_error net msg)).
Proof.
  intros Hlog w. unfold try_except, get_json.
  destruct (requests_get_json net r w) as [[v|e] w1].
  - exists (Ok v), []. by split.
  - destruct e; try (eexists _, []; by split).
    eexists _, _. split; [reflexivity|]. by apply Forall_cons_2.
Qed.

Lemma reads_first_bind net r P {A C} (m : M net A) (f : A -> M net C) :
  reads_first net r P m -> (forall x, only net P (f x)) ->
  reads_first net r P (m ≫= f).
Proof.
  intros Hm Hf w. rewrite run_bind. destruct (Hm w) as (a & rest & Ht & Hrest).
  destruct (m w) as [[[x|e] t] w1]; unfold trace in Ht; simpl in Ht; subst t.
  - rewrite trace_preceded. exists a, (rest ++ trace (f x w1)).
    split; [done|]. apply Forall_app. split; [done | apply Hf].
  - by exists a, rest.
Qed.

Lemma no_reads_no_codes t :
  Forall not_a_read t -> slot_codes t = [] /\ distance_zips t = [] /\ requested t = [].
Proof.
  induction 1 as [|e t He _ (IH1 & IH2 & IH3)]; [done|]. by destruct e.
Qed.

Lemma slot_codes_app t1 t2 : slot_codes (t1 ++ t2) = slot_codes t1 ++ slot_codes t2.
Proof. apply omap_app. Qed.

Lemma slot_codes_read code start finish a t :
  slot_codes (EGet (SlotsRequest code start finish) a :: t) = code :: slot_codes t.
Proof. reflexivity. Qed.

(** A call of [check_for_openings] either stops before any event (the
    window runs past the last date) or starts with its read of the
    scheduler and reads nothing else. *)
Lemma check_for_openings_reads net name code test_mode w :
  let x := check_for_openings net name code test_mode w in
  (trace x = [] /\ exists e, outcome x = Raise e)
  \/ (exists start finish a rest,
        trace x = EGet (SlotsRequest code start finish) a :: rest
        /\ Forall not_a_read rest).
Proof.
  intros x. subst x. unfold check_for_openings. rewrite run_bind. unfold now.
  destruct (datetime_now net w) as [start w1]. rewrite preceded_nil, run_lift_bind.
  destruct (add_weeks start DELTA) as [finish|]; [|left; by eauto].
  right. cbv beta iota zeta.
  match goal with
  | |- context [(?m ≫= ?f) w1] =>
      destruct (reads_first_bind net
                  (SlotsRequest code (strftime_ttp start) (strftime_ttp finish))
                  not_a_read m f) with (w := w1) as (a & rest & Ht & Hrest)
  end.
  - by apply reads_first_guarded_get.
  - intros results. apply only_bind; [apply only_lift|]. intros l.
    by apply only_check_for_openings_loop.
  - by eauto 6.
Qed.

Lemma check_main_locations_reads net locations args w :
  let x := check_main_locations net locations args w in
  let codes := (fun l : string * Z => VInt l.2) <$> locations in
  (outcome x = Ok tt /\ slot_codes (trace x) = codes)
  \/ ((exists e, outcome x = Raise e) /\ slot_codes (trace x) `prefix_of` codes).
Proof.
  revert w. induction locations as [|[name code] locations IH]; intros w; simpl.
  { left. by split. }
  unfold check_main_locations. simpl for_each. rewrite run_bind.
  pose proof (check_for_openings_reads net name (VInt code) (test args) w) as Hone.
  simpl in Hone.
  destruct (check_for_openings net name (VInt code) (test args) w) as [[[[]|e] t] w1];
    unfold trace, outcome in Hone; simpl in Hone.
  - destruct Hone as [[_ [e He]] | (start & finish & a & rest & -> & Hrest)]; [done|].
    destruct (no_reads_no_codes rest Hrest) as (Hcodes & _ & _).
    rewrite trace_preceded, slot_codes_app, slot_codes_read, Hcodes. simpl app.
    specialize (IH w1). unfold check_main_locations in IH. simpl in IH.
    destruct IH as [[Hout Hc] | [Hout Hc]].
    + left. split; [|by rewrite Hc].
      destruct (for_each net locations _ w1) as [[r t'] w2]. by simpl in *.
    + right. split; [|by apply prefix_cons].
      destruct (for_each net locations _ w1) as [[r t'] w2]. by simpl in *.
  - right. split; [by eauto|]. unfold trace. simpl.
    destruct Hone as [[-> _] | (start & finish & a & rest & -> & Hrest)].
    + apply prefix_nil.
    + destruct (no_reads_no_codes rest Hrest) as (Hcodes & _ & _).
      rewrite slot_codes_read, Hcodes. apply prefix_cons, prefix_nil.
Qed.

Lemma config_and_logs_read_nothing t :
  Forall is_log_or_config t -> slot_codes t = [] /\ requested t = [].
Proof.
  induction 1 as [|e t He _ (IH1 & IH2)]; [done|]. by destruct e.
Qed.

Lemma scan_events_read_no_slots t : Forall scan_event t -> slot_codes t = [].
Proof.
  induction 1 as [|e t He _ IH]; [done|]. by destruct e as [[]| | | |].
Qed.

Lemma first_loop_events_skip_the_directory t :
  Forall first_loop_event t -> LocationListRequest ∉ requested t.
Proof.
  induction 1 as [|e t He _ IH]; [by apply not_elem_of_nil|].
  destruct e as [[code start finish| |] a| | | |]; try done.
  change (requested (EGet (SlotsRequest code start finish) a :: t))
    with (SlotsRequest code start finish :: requested t).
  by intros [?|?]%elem_of_cons.
Qed.

(** X6: [main] reads the scheduler for the fixed locations in the order
    of the list, each at most once, and for no other location; once it
    has read the directory, or when it ends normally, it has read the
    scheduler for every fixed location. *)
Theorem main_reads_the_scheduler_in_order net locations args w :
  let run := main_with net locations args w in
  let codes := (fun l : string * Z => VInt l.2) <$> locations in
  slot_codes (trace run) `prefix_of` codes
  /\ (outcome run = Ok tt -> slot_codes (trace run) = codes)
  /\ (LocationListRequest ∈ requested (trace run) -> slot_codes (trace run) = codes).
Proof.
  intros run codes. subst run.
  destruct (main_with_run net locations args w) as (t0 & Ht0 & ->).
  destruct (config_and_logs_read_nothing t0 Ht0) as [Hc0 Hr0].
  rewrite trace_preceded, slot_codes_app, Hc0. simpl app.
  unfold requested. rewrite omap_app. fold (requested t0). rewrite Hr0. simpl app.
  rewrite run_bind.
  pose proof (check_main_locations_reads net locations args w) as Hfirst.
  pose proof (only_check_main_locations net first_loop_event locations args
                ltac:(done) ltac:(done) ltac:(done) ltac:(done) w) as Honly.
  pose proof (only_scan_after_first_loop net (last (fst <$> locations)) args) as Hrest.
  simpl in Hfirst. fold codes in Hfirst.
  destruct (check_main_locations net locations args w) as [[[[]|e] t1] w1];
    unfold trace, outcome in Hfirst, Honly; simpl in Hfirst, Honly.
  - destruct Hfirst as [[_ Hcodes] | [[e He] _]]; [|done].
    specialize (Hrest w1). apply scan_events_read_no_slots in Hrest.
    assert (Hall : slot_codes (trace (preceded t1
              ((logging_info net "Find locations within %d miles of %d"
                  [VInt MAX_DISTANCE_MILES; VInt HOME_ZIP];;
                locations' ← get_full_location_list net;
                logging_info net "Found %d locations"
                  [VInt (Z.of_nat (length locations'))];;
                check_nearby_locations net (last (fst <$> locations)) locations' args)
                 w1))) = codes).
    { by rewrite trace_preceded, slot_codes_app, Hrest, app_nil_r. }
    rewrite Hall. by repeat split.
  - destruct Hfirst as [[? _] | [_ Hprefix]]; [done|].
    unfold trace, outcome. simpl.
    split; [done|]. split; [done|].
    intros Hdir. by apply first_loop_events_skip_the_directory in Honly.
Qed.

(** [is_location_nearby] starts with its read of the distance service,
    from the home zip code, and only logs after it. *)
Lemma is_location_nearby_reads net name zipcode :
  reads_first net (DistanceRequest (VInt HOME_ZIP) zipcode) is_log
    (is_location_nearby net name zipcode).
Proof.
  unfold is_location_nearby, calculate_distance.
  apply reads_first_bind.
  - apply reads_first_bind; [by apply reads_first_guarded_get|].
    intros results. apply only_bind; [apply only_lift|]. intros [].
    + apply only_bind; [apply only_lift|]. intros distance.
      apply only_bind; [apply only_lift|]. intros []; apply only_ret.
    + do 2 (apply only_bind; [by apply only_emit|]; intros _). apply only_ret.
  - intros distance. apply only_bind; [|intros; apply only_ret].
    destruct (truthy distance); [by apply only_emit | apply only_ret].
Qed.

Lemma outcome_preceded {A} net t (x : result A * list event * World net) :
  outcome (preceded t x) = outcome x.
Proof. by destruct x as [[r t'] w]. Qed.

Lemma requested_app t1 t2 : requested (t1 ++ t2) = requested t1 ++ requested t2.
Proof. apply omap_app. Qed.

Lemma distance_zips_app t1 t2 :
  distance_zips (t1 ++ t2) = distance_zips t1 ++ distance_zips t2.
Proof. apply omap_app. Qed.

Lemma logs_read_no_distance t : Forall is_log t -> distance_zips t = [].
Proof.
  induction 1 as [|e t He _ IH]; [done|]. by destruct e.
Qed.

Lemma check_nearby_locations_reads net location_name locations args w :
  let run := check_nearby_locations net location_name locations args w in
  let zips := (fun l : location => l.2) <$> locations in
  distance_zips (trace run) `prefix_of` zips
  /\ (outcome run = Ok tt -> distance_zips (trace run) = zips)
  /\ Forall (fun r => exists zip, r = DistanceRequest (VInt HOME_ZIP) zip)
       (requested (trace run)).
Proof.
  revert w. induction locations as [|[[location_id name] zipcode] locations IH];
    intros w; simpl.
  { repeat split; [done | apply Forall_nil_2]. }
  unfold check_nearby_locations. simpl for_each. rewrite run_bind_assoc, run_bind.
  destruct (is_location_nearby_reads net name zipcode w) as (a & logs & Ht & Hlogs).
  pose proof (is_location_nearby_returns net name zipcode w) as Hnone.
  destruct (is_location_nearby net name zipcode w) as [[[nearby|e] t] w1];
    unfold trace in Ht; simpl in Ht; subst t.
  - rewrite (Hnone nearby _ w1 eq_refl). simpl truthy. cbv iota.
    rewrite run_ret_bind, trace_preceded.
    specialize (IH w1). unfold check_nearby_locations in IH. simpl in IH.
    destruct IH as (Hprefix & Hfull & Hhome).
    rewrite distance_zips_app, requested_app.
    change (distance_zips (EGet (DistanceRequest (VInt HOME_ZIP) zipcode) a :: logs))
      with (zipcode :: distance_zips logs).
    change (requested (EGet (DistanceRequest (VInt HOME_ZIP) zipcode) a :: logs))
      with (DistanceRequest (VInt HOME_ZIP) zipcode :: requested logs).
    destruct (logs_announce_nothing logs Hlogs) as (_ & _ & Hreq).
    rewrite (logs_read_no_distance logs Hlogs), Hreq. simpl app.
    split; [by apply prefix_cons|]. split.
    + intros Hout. rewrite Hfull; [done|].
      destruct (for_each net locations _ w1) as [[r t'] w2]. by simpl in *.
    + apply Forall_cons_2; [by eauto | exact Hhome].
  - unfold trace, outcome. simpl.
    change (distance_zips (EGet (DistanceRequest (VInt HOME_ZIP) zipcode) a :: logs))
      with (zipcode :: distance_zips logs).
    rewrite (logs_read_no_distance logs Hlogs).
    destruct (logs_announce_nothing logs Hlogs) as (_ & _ & Hreq).
    split; [apply prefix_cons, prefix_nil|]. split; [done|].
    change (requested (EGet (DistanceRequest (VInt HOME_ZIP) zipcode) a :: logs))
      with (DistanceRequest (VInt HOME_ZIP) zipcode :: requested logs).
    rewrite Hreq. apply Forall_cons_2; [by eauto | apply Forall_nil_2].
Qed.

(** When the read of [is_location_nearby] raises, so does the function:
    a connection error becomes the exit, any other exception goes on. *)
Lemma is_location_nearby_raised_read net name zipcode w r e rest :
  trace (is_location_nearby net name zipcode w) = EGet r (Raise e) :: rest ->
  exists e', outcome (is_location_nearby net name zipcode w) = Raise e'.
Proof.
  unfold is_location_nearby, calculate_distance. cbv zeta.
  rewrite run_bind_assoc, run_bind. unfold try_except, get_json.
  destruct (requests_get_json net _ w) as [[v|e0] w1].
  - rewrite trace_preceded. intros H. by injection H.
  - intros _. destruct e0; by eexists.
Qed.

(** Where an event that the first events do not hold sits in a trace. *)
Lemma first_occurrence_after (x : event) t1 t2 before later :
  Forall (fun ev => ev <> x) t1 ->
  t1 ++ t2 = before ++ x :: later ->
  exists before', before = t1 ++ before' /\ t2 = before' ++ x :: later.
Proof.
  intros Hclean. revert before.
  induction Hclean as [|y t1 Hy _ IH]; intros before H.
  { by exists before. }
  destruct before as [|b before]; simpl in H.
  { injection H as -> _. by destruct Hy. }
  injection H as -> H. destruct (IH _ H) as (before' & -> & ->).
  by exists before'.
Qed.

(** After a distance read that raises, the nearby scan only logs, and it
    ends with an exception. *)
Lemma check_nearby_locations_stops net location_name locations args w
    before r e later :
  let run := check_nearby_locations net location_name locations args w in
  trace run = before ++ EGet r (Raise e) :: later ->
  Forall is_log later /\ exists e', outcome run = Raise e'.
Proof.
  revert w before.
  induction locations as [|[[location_id name] zipcode] locations IH];
    intros w before; simpl.
  { intros H. by destruct before. }
  unfold check_nearby_locations. simpl for_each. rewrite run_bind_assoc, run_bind.
  destruct (is_location_nearby_reads net name zipcode w) as (a & logs & Ht & Hlogs).
  pose proof (is_location_nearby_returns net name zipcode w) as Hnone.
  pose proof (is_location_nearby_raised_read net name zipcode w) as Hraised.
  destruct (is_location_nearby net name zipcode w) as [[[nearby|e0] t] w1];
    unfold trace in Ht; simpl in Ht; subst t.
  - rewrite (Hnone nearby _ w1 eq_refl). simpl truthy. cbv iota.
    rewrite run_ret_bind, trace_preceded, outcome_preceded.
    intros H. apply first_occurrence_after in H as (before' & _ & H).
    + specialize (IH w1 before'). unfold check_nearby_locations in IH.
      by apply IH.
    + apply Forall_cons_2.
      * intros [= _ ->].
        by destruct (Hraised _ e logs eq_refl) as [e' He'].
      * eapply Forall_impl; [exact Hlogs|]. by intros [] ? ?.
  - unfold trace, outcome. simpl. intros H.
    split; [|by eexists].
    destruct before as [|b before]; simpl in H.
    + by injection H as _ _ <-.
    + injection H as _ H. rewrite H in Hlogs.
      apply Forall_app in Hlogs as [_ Hlogs].
      by apply Forall_cons in Hlogs as [[] _].
Qed.

(** X7: the nearby scan reads the distance service once per location of
    the list, in the order of the list, from the home zip code to the
    zip code of the location, and stops at the first read that raises:
    after a read that raised it makes no other read, it only logs, and
    it ends with an exception.  When it ends normally it has read the
    distance of every location. *)
Theorem nearby_scan_reads_distances_in_order net location_name locations args w :
  let run := check_nearby_locations net location_name locations args w in
  let zips := (fun l : location => l.2) <$> locations in
  distance_zips (trace run) `prefix_of` zips
  /\ (outcome run = Ok tt -> distance_zips (trace run) = zips)
  /\ Forall (fun r => exists zip, r = DistanceRequest (VInt HOME_ZIP) zip)
       (requested (trace run))
  /\ (forall before r e later,
        trace run = before ++ EGet r (Raise e) :: later ->
        Forall is_log later /\ exists e', outcome run = Raise e').
Proof.
  intros run zips.
  destruct (check_nearby_locations_reads net location_name locations args w)
    as (Hprefix & Hfull & Hhome).
  split; [exact Hprefix|]. split; [exact Hfull|]. split; [exact Hhome|].
  intros before r e later H.
  exact (check_nearby_locations_stops net location_name locations args w
           before r e later H).
Qed.

(** Offline, the scan of two locations stops at its first read: the
    read raises, the error is logged, and the exit follows. *)
Lemma nearby_scan_reads_distances_in_order_when_offline :
  let run := check_nearby_locations offline_network (Some "STL")
               [(VInt 7540, VStr "Kansas City", VStr "64153");
                (VInt 5300, VStr "St. Louis", VStr "63101")]
               (mk_Args true false) tt in
  trace run =
    [EGet (DistanceRequest (VInt HOME_ZIP) (VStr "64153")) (Raise ConnectionError);
     ELog ERROR (VStr "Could not connect to distance API") []]
  /\ distance_zips (trace run) = [VStr "64153"]
  /\ Forall is_log [ELog ERROR (VStr "Could not connect to distance API") []]
  /\ exists e', outcome run = Raise e'.
Proof.
  intros run.
  assert (Ht : trace run =
    [] ++ EGet (DistanceRequest (VInt HOME_ZIP) (VStr "64153")) (Raise ConnectionError)
       :: [ELog ERROR (VStr "Could not connect to distance API") []])
    by (vm_compute; reflexivity).
  split; [exact Ht|]. split; [vm_compute; reflexivity|].
  destruct (nearby_scan_reads_distances_in_order offline_network (Some "STL")
              [(VInt 7540, VStr "Kansas City", VStr "64153");
               (VInt 5300, VStr "St. Louis", VStr "63101")]
              (mk_Args true false) tt) as (_ & _ & _ & Hstops).
  exact (Hstops _ _ _ _ Ht).
Defined.

(** ** More about the location list *)

(** X8: the location list is all or nothing.  When an entry of the
    directory's answer lacks its country code, or is a US entry without
    one of the fields of a location, [get_full_location_list] raises the
    exception of that field: the entries read before it are lost with
    it, and the events after the read are logs only. *)
Theorem malformed_entry_loses_the_list net w before e later w' x :
  requests_get_json net LocationListRequest w
  = (Ok (VList (before ++ e :: later)), w') ->
  Forall well_formed_entry before ->
  getitem e "countryCode" = Raise x \/ (is_US e = true /\ location_of e = Raise x) ->
  exists logs,
    get_full_location_list net w
    = (Raise x,
       EGet LocationListRequest (Ok (VList (before ++ e :: later))) :: logs, w')
    /\ Forall is_log logs.
Proof.
  intros Hget Hwf Hbad. unfold get_full_location_list.
  rewrite run_bind. unfold try_except, get_json. rewrite Hget.
  rewrite run_lift_bind. simpl iter. cbv iota.
  assert (Hloop : forall locations, exists logs,
    get_full_location_list_loop net (before ++ e :: later) locations w'
    = (Raise x, logs, w') /\ Forall is_log logs).
  { clear Hget. induction Hwf as [|e0 rest [[country Hcountry] Hloc] _ IH];
      intros locations; simpl app.
    { exists []. split; [by apply get_full_location_list_loop_raises | done]. }
    destruct (is_US e0) eqn:HUS.
    - destruct (Hloc eq_refl) as [[[location_id name] zipcode] Hloc'].
      rewrite (get_full_location_list_loop_US _ _ _ _ _ _ _ _ HUS Hloc').
      destruct (IH (locations ++ [(location_id, name, zipcode)])) as (logs & -> & Hlogs).
      eexists. split; [reflexivity|]. by apply Forall_cons_2.
    - rewrite (get_full_location_list_loop_other _ _ _ _ _ _ Hcountry HUS).
      destruct (IH locations) as (logs & -> & Hlogs).
      eexists. split; [reflexivity|]. by apply Forall_cons_2. }
  destruct (Hloop []) as (logs & -> & Hlogs). by exists logs.
Qed.

(** Kansas City is read first and lost when the next entry has no short
    name. *)
Lemma malformed_entry_loses_the_list_on_sample :
  Forall well_formed_entry [kansas_city]
  /\ is_US no_short_name = true
  /\ location_of no_short_name = Raise KeyError
  /\ exists logs,
       get_full_location_list
         (sample_network [] [kansas_city; no_short_name; toronto] 150) tt
       = (Raise KeyError,
          EGet LocationListRequest (Ok (VList [kansas_city; no_short_name; toronto]))
            :: logs, tt)
       /\ Forall is_log logs.
Proof.
  assert (Hwf : Forall well_formed_entry [kansas_city]).
  { apply Forall_cons_2; [|apply Forall_nil_2].
    split; [eexists; vm_compute; reflexivity
           |intros _; eexists; vm_compute; reflexivity]. }
  assert (HUS : is_US no_short_name = true) by (vm_compute; reflexivity).
  assert (Hloc : location_of no_short_name = Raise KeyError) by (vm_compute; reflexivity).
  split; [exact Hwf|]. split; [exact HUS|]. split; [exact Hloc|].
  apply (malformed_entry_loses_the_list
           (sample_network [] [kansas_city; no_short_name; toronto] 150)
           tt [kansas_city] no_short_name [toronto] tt KeyError).
  - reflexivity.
  - exact Hwf.
  - right. split; [exact HUS | exact Hloc].
Defined.









(** ** More about the distance and the opening checker *)

Lemma calculate_distance_reads net home_zip location_zip max_distance :
  reads_first net (DistanceRequest home_zip location_zip) is_log
    (calculate_distance net home_zip location_zip max_distance).
Proof.
  unfold calculate_distance.
  apply reads_first_bind; [by apply reads_first_guarded_get|].
  intros results. apply only_bind; [apply only_lift|]. intros [].
  - apply only_bind; [apply only_lift|]. intros distance.
    apply only_bind; [apply only_lift|]. intros []; apply only_ret.
  - do 2 (apply only_bind; [by apply only_emit|]; intros _). apply only_ret.
Qed.

(** X12: [calculate_distance] reads the distance service exactly once,
    for the two zip codes it is given, and neither prints nor posts.
    What it returns is [False] or a number strictly below the maximum:
    never a distance at or above it. *)
Theorem calculate_distance_returns_false_or_below net home_zip location_zip
    max_distance w :
  let run := calculate_distance net home_zip location_zip max_distance w in
  requested (trace run) = [DistanceRequest home_zip location_zip]
  /\ printed (trace run) = []
  /\ posted (trace run) = []
  /\ forall v, outcome run = Ok v ->
       v = VBool false
       \/ exists q, as_number v = Ok q /\ (q < inject_Z max_distance)%Q.
Proof.
  intros run. subst run.
  destruct (calculate_distance_reads net home_zip location_zip max_distance w)
    as (a & logs & Ht & Hlogs).
  destruct (logs_announce_nothing logs Hlogs) as (Hp & Hq & Hr).
  rewrite Ht.
  change (requested (EGet (DistanceRequest home_zip location_zip) a :: logs))
    with (DistanceRequest home_zip location_zip :: requested logs).
  change (printed (EGet (DistanceRequest home_zip location_zip) a :: logs))
    with (printed logs).
  change (posted (EGet (DistanceRequest home_zip location_zip) a :: logs))
    with (posted logs).
  rewrite Hp, Hq, Hr. repeat split. clear Ht.
  intros v. unfold calculate_distance. rewrite run_bind.
  destruct (try_except net _ _ w) as [[[results|e] t0] w0]; [|done].
  rewrite outcome_preceded, run_lift_bind.
  destruct (contains "distance" results) as [[]|]; [| |done].
  - rewrite run_lift_bind.
    destruct (getitem results "distance") as [distance|]; [|done].
    rewrite run_lift_bind. unfold lt_int.
    destruct (as_number distance) as [q|] eqn:Hq'; [|done]. simpl.
    destruct (Qlt_bool q (inject_Z max_distance)) eqn:Hbelow.
    + intros [= <-]. right. exists q. split; [done|].
      unfold Qlt_bool in Hbelow. apply negb_true_iff, not_true_iff_false in Hbelow.
      rewrite Qle_bool_iff in Hbelow. by apply Qnot_le_lt.
    + intros [= <-]. by left.
  - intros [= <-]. by left.
Qed.

(** X13: when the first open record has no timestamp, or one that does
    not read as a time, [check_for_openings] logs the opening as found
    and raises the exception of the timestamp: nothing is printed or
    posted, and the records after it are not looked at. *)
Theorem unreadable_timestamp_raises net name code test_mode w start w1 finish
    earlier r later w2 x :
  datetime_now net w = (start, w1) ->
  add_weeks start DELTA = Ok finish ->
  requests_get_json net
    (SlotsRequest code (strftime_ttp start) (strftime_ttp finish)) w1
  = (Ok (VList (earlier ++ r :: later)), w2) ->
  Forall (fun r => no_opening r = true) earlier ->
  has_opening r = true ->
  (stamp ← getitem r "timestamp"; strptime_value stamp) = Raise x ->
  check_for_openings net name code test_mode w =
  (Raise x,
   [EGet (SlotsRequest code (strftime_ttp start) (strftime_ttp finish))
      (Ok (VList (earlier ++ r :: later)));
    ELog INFO (VStr ("Opening found for " +:+ name)) []],
   w2).
Proof.
  intros Hnow Hadd Hget Hclosed Hopen Hstamp.
  rewrite (check_for_openings_fetched _ _ _ _ _ _ _ _ _ _ Hnow Hadd Hget).
  assert (Hscan :
    check_for_openings_loop net name test_mode (earlier ++ r :: later) w2 =
    (Raise x, [ELog INFO (VStr ("Opening found for " +:+ name)) []], w2)).
  { clear Hget. induction Hclosed as [|r0 l Hr0 _ IH]; simpl app.
    - rewrite check_for_openings_loop_hit by done.
      rewrite run_logging_info_bind, run_lift_bind.
      destruct (getitem r "timestamp") as [stamp|]; simpl in Hstamp; [|by simplify_eq].
      rewrite run_lift_bind, Hstamp. reflexivity.
    - by rewrite check_for_openings_loop_skip. }
  by rewrite Hscan.
Qed.

(** A timestamp with seconds is not in the scheduler's format. *)
Lemma unreadable_timestamp_raises_on_sample :
  Forall (fun r => no_opening r = true) [slot 0 "2024-06-03T08:00"]
  /\ has_opening (slot 3 "2024-07-01T09:00:00") = true
  /\ strptime "2024-07-01T09:00:00" = Raise ValueError
  /\ check_for_openings (sample_network slots_with_seconds [] 150)
       "PIA" (VInt 11002) true tt =
     (Raise ValueError,
      [EGet (SlotsRequest (VInt 11002) "2024-06-01T12:00" "2024-11-30T12:00")
         (Ok (VList slots_with_seconds));
       ELog INFO (VStr "Opening found for PIA") []],
      tt).
Proof.
  assert (Hclosed : Forall (fun r => no_opening r = true) [slot 0 "2024-06-03T08:00"]).
  { apply Forall_cons_2; [vm_compute; reflexivity | apply Forall_nil_2]. }
  assert (Hopen : has_opening (slot 3 "2024-07-01T09:00:00") = true).
  { vm_compute. reflexivity. }
  split; [exact Hclosed|]. split; [exact Hopen|].
  split; [vm_compute; reflexivity|].
  apply (unreadable_timestamp_raises (sample_network slots_with_seconds [] 150)
           "PIA" (VInt 11002) true tt noon tt (mk_datetime 2024 11 30 12 0 0 0)
           [slot 0 "2024-06-03T08:00"] (slot 3 "2024-07-01T09:00:00")
           [slot 1 "2024-07-02T09:00"] tt ValueError).
  - reflexivity.
  - vm_compute. reflexivity.
  - reflexivity.
  - exact Hclosed.
  - exact Hopen.
  - vm_compute. reflexivity.
Defined.

(** ** The window of a request *)

Lemma ord2ymd_cycle n :
  ord2ymd n = ord2ymd_in_cycle ((n - 1) / DI400Y) ((n - 1) mod DI400Y).
Proof. reflexivity. Qed.

Lemma ord2ymd_in_cycle_shift a r :
  ord2ymd_in_cycle a r =
  let '(y, m, d) := ord2ymd_in_cycle 0 r in (y + 400 * a, m, d).
Proof.
  unfold ord2ymd_in_cycle. cbv zeta.
  repeat match goal with
         | |- context [if ?b then _ else _] => destruct b
         end; f_equal; f_equal; lia.
Qed.

Lemma is_leap_shift y a : is_leap (y + 400 * a) = is_leap y.
Proof.
  unfold is_leap.
  replace (y + 400 * a) with (y + (100 * a) * 4) at 1 by lia.
  replace (y + 400 * a) with (y + (4 * a) * 100) at 1 by lia.
  replace (y + 400 * a) with (y + a * 400) by lia.
  by rewrite !Z.mod_add.
Qed.

Lemma ymd2ord_shift y m d a :
  ymd2ord (y + 400 * a) m d = ymd2ord y m d + DI400Y * a.
Proof.
  unfold ymd2ord, days_before_month, days_before_year. rewrite is_leap_shift.
  cbv zeta.
  replace ((y + 400 * a - 1) / 4) with ((y - 1) / 4 + 100 * a).
  2: { replace (y + 400 * a - 1) with (y - 1 + (100 * a) * 4) by lia.
       by rewrite Z.div_add. }
  replace ((y + 400 * a - 1) / 100) with ((y - 1) / 100 + 4 * a).
  2: { replace (y + 400 * a - 1) with (y - 1 + (4 * a) * 100) by lia.
       by rewrite Z.div_add. }
  replace ((y + 400 * a - 1) / 400) with ((y - 1) / 400 + a).
  2: { replace (y + 400 * a - 1) with (y - 1 + a * 400) by lia.
       by rewrite Z.div_add. }
  unfold DI400Y. lia.
Qed.

Lemma days_in_month_shift y m a : days_in_month (y + 400 * a) m = days_in_month y m.
Proof. unfold days_in_month. by rewrite is_leap_shift. Qed.

Lemma all_in_range_spec f k start :
  all_in_range f k start = true ->
  forall r, start <= r < start + 2 ^ Z.of_nat k -> f r = true.
Proof.
  revert start. induction k as [|k IH]; intros start H r Hr.
  - simpl in *. by replace r with start by lia.
  - simpl in H. apply andb_true_iff in H as [H1 H2].
    rewrite Nat2Z.inj_succ, Z.pow_succ_r in Hr by lia.
    destruct (decide (r < start + 2 ^ Z.of_nat k)).
    + apply (IH start); [done | lia].
    + apply (IH (start + 2 ^ Z.of_nat k)); [done | lia].
Qed.

Lemma ord2ymd_in_cycle_eq n400 r :
  ord2ymd_in_cycle n400 r =
  let n100 := r / DI100Y in
  let r1 := r mod DI100Y in
  let n4 := r1 / DI4Y in
  let r2 := r1 mod DI4Y in
  let n1 := r2 / 365 in
  let n := r2 mod 365 in
  let y := n400 * 400 + 1 + n100 * 100 + n4 * 4 + n1 in
  if (n1 =? 4) || (n100 =? 4) then (y - 1, 12, 31)
  else
    let '(m, d) := month_day ((n1 =? 3) && (negb (n4 =? 24) || (n100 =? 3))) n in
    (y, m, d).
Proof.
  unfold ord2ymd_in_cycle, month_day. cbv zeta.
  destruct (_ || _); [done|]. by destruct (_ <? _).
Qed.

Lemma digits r :
  0 <= r < 146097 ->
  let n100 := r / 36524 in
  let r1 := r mod 36524 in
  let n4 := r1 / 1461 in
  let r2 := r1 mod 1461 in
  let n1 := r2 / 365 in
  let n := r2 mod 365 in
  r = 36524 * n100 + 1461 * n4 + 365 * n1 + n
  /\ 0 <= n100 <= 4 /\ 0 <= n4 <= 24 /\ 0 <= n1 <= 4 /\ 0 <= n < 365
  /\ (n100 = 4 -> n4 = 0 /\ n1 = 0 /\ n = 0)
  /\ (n1 = 4 -> n = 0 /\ n4 <= 23).
Proof. intros Hr. cbv zeta. Z.div_mod_to_equations. lia. Qed.

Lemma year_part n100 n4 n1 :
  0 <= n100 <= 3 -> 0 <= n4 <= 24 -> 0 <= n1 <= 3 ->
  let y := 1 + n100 * 100 + n4 * 4 + n1 in
  days_before_year y = 36524 * n100 + 1461 * n4 + 365 * n1
  /\ is_leap y = (n1 =? 3) && (negb (n4 =? 24) || (n100 =? 3)).
Proof.
  intros H100 H4 H1 y. subst y.
  unfold days_before_year, is_leap. cbv zeta. split.
  { Z.div_mod_to_equations. lia. }
  repeat match goal with
         | |- context [?a =? ?b] => destruct (Z.eqb_spec a b)
         end; simpl; try reflexivity; exfalso; Z.div_mod_to_equations; lia.
Qed.

Lemma months_ok leapyear :
  all_in_range (month_day_ok leapyear) 9 0 = true.
Proof. destruct leapyear; vm_compute; reflexivity. Qed.

Lemma days_in_month_leap y y' m :
  is_leap y = is_leap y' -> days_in_month y m = days_in_month y' m.
Proof. unfold days_in_month. by intros ->. Qed.

Lemma days_before_month_leap y y' m :
  is_leap y = is_leap y' -> days_before_month y m = days_before_month y' m.
Proof. unfold days_before_month. by intros ->. Qed.

Lemma month_day_spec y n :
  0 <= n < 365 ->
  let '(m, d) := month_day (is_leap y) n in
  days_before_month y m + d = n + 1
  /\ 1 <= m <= 12 /\ 1 <= d <= days_in_month y m.
Proof.
  intros Hn.
  pose proof (all_in_range_spec _ _ _ (months_ok (is_leap y)) n ltac:(simpl; lia)) as H.
  unfold month_day_ok in H. cbv zeta in H.
  destruct (month_day (is_leap y) n) as [m d].
  assert (Hleap : is_leap y = is_leap (sample_year (is_leap y))).
  { by destruct (is_leap y). }
  rewrite (days_before_month_leap y _ m Hleap), (days_in_month_leap y _ m Hleap).
  apply orb_true_iff in H as [H | H].
  { apply Z.leb_le in H. destruct (is_leap y); lia. }
  repeat (apply andb_true_iff in H as [H ?]).
  repeat match goal with
         | H : (_ =? _) = true |- _ => apply Z.eqb_eq in H
         | H : (_ <=? _) = true |- _ => apply Z.leb_le in H
         end.
  lia.
Qed.

Lemma first_cycle r :
  0 <= r < DI400Y ->
  let '(y, m, d) := ord2ymd_in_cycle 0 r in
  ymd2ord y m d = r + 1
  /\ 1 <= y <= 400 /\ (r <= 145730 -> y <= 399)
  /\ 1 <= m <= 12 /\ 1 <= d <= days_in_month y m.
Proof.
  unfold DI400Y. intros Hr. rewrite ord2ymd_in_cycle_eq.
  unfold DI100Y, DI4Y. cbv zeta.
  destruct (digits r Hr) as (Hsum & H100 & H4 & H1 & Hn & Hlast & Hend).
  cbv zeta in *.
  set (n100 := r / 36524) in *. set (r1 := r mod 36524) in *.
  set (n4 := r1 / 1461) in *. set (r2 := r1 mod 1461) in *.
  set (n1 := r2 / 365) in *. set (n := r2 mod 365) in *.
  clearbody n100 n4 n1 n. clear r1 r2.
  destruct (Z.eqb_spec n1 4) as [E1|E1]; simpl orb; cbv iota.
  { (* the last day of a leap year *)
    destruct (Hend E1) as [-> H4'].
    destruct (decide (n100 = 4)) as [E100|E100]; [lia|].
    destruct (year_part n100 n4 3 ltac:(lia) ltac:(lia) ltac:(lia)) as [Hdby Hleap].
    cbv zeta in Hdby, Hleap.
    replace (0 * 400 + 1 + n100 * 100 + n4 * 4 + n1 - 1)
      with (1 + n100 * 100 + n4 * 4 + 3) by lia.
    unfold ymd2ord, days_before_month, days_in_month.
    rewrite Hdby, Hleap. simpl Z.eqb at 1.
    replace (n4 =? 24) with false by (symmetry; apply Z.eqb_neq; lia).
    simpl. lia. }
  destruct (Z.eqb_spec n100 4) as [E100|E100]; cbv iota.
  { destruct (Hlast E100) as (-> & -> & ->). subst n100 r. vm_compute.
    intuition congruence. }
  destruct (year_part n100 n4 n1 ltac:(lia) ltac:(lia) ltac:(lia)) as [Hdby Hleap].
  cbv zeta in Hdby, Hleap.
  replace (0 * 400 + 1 + n100 * 100 + n4 * 4 + n1)
    with (1 + n100 * 100 + n4 * 4 + n1) by lia.
  rewrite <- Hleap.
  pose proof (month_day_spec (1 + n100 * 100 + n4 * 4 + n1) n Hn) as Hmd.
  destruct (month_day _ n) as [m d].
  unfold ymd2ord. rewrite Hdby. lia.
Qed.

(** [ord2ymd] and [ymd2ord] are inverse on the ordinals of the
    calendar, and [ord2ymd] gives dates of the calendar. *)
Lemma ord2ymd_ymd2ord n :
  1 <= n <= MAXORDINAL ->
  let '(y, m, d) := ord2ymd n in
  ymd2ord y m d = n
  /\ MINYEAR <= y <= MAXYEAR /\ 1 <= m <= 12 /\ 1 <= d <= days_in_month y m.
Proof.
  intros Hn. rewrite ord2ymd_cycle, ord2ymd_in_cycle_shift.
  pose proof (Z.div_mod (n - 1) DI400Y ltac:(done)) as Hdiv.
  pose proof (Z.mod_pos_bound (n - 1) DI400Y ltac:(done)) as Hmod.
  set (a := (n - 1) / DI400Y) in *. set (r := (n - 1) mod DI400Y) in *.
  pose proof (first_cycle r Hmod) as Hok.
  destruct (ord2ymd_in_cycle 0 r) as [[y m] d].
  destruct Hok as (Hord & Hy & Hlast & Hm & Hd).
  rewrite ymd2ord_shift, days_in_month_shift.
  unfold MINYEAR, MAXYEAR, MAXORDINAL, DI400Y in *.
  assert (0 <= a <= 24) by lia.
  assert (a = 24 -> r <= 145730) by lia.
  repeat split; lia.
Qed.

(** The window [add_weeks] computes. *)
Lemma add_weeks_window start finish :
  add_weeks start DELTA = Ok finish -> window_end start finish.
Proof.
  unfold add_weeks. cbv zeta.
  destruct ((0 <? toordinal start + 7 * DELTA)
            && (toordinal start + 7 * DELTA <=? MAXORDINAL)) eqn:Hrange; [|done].
  apply andb_true_iff in Hrange as [H0%Z.ltb_lt H1%Z.leb_le].
  pose proof (ord2ymd_ymd2ord (toordinal start + 7 * DELTA) ltac:(lia)) as Hinv.
  destruct (ord2ymd (toordinal start + 7 * DELTA)) as [[y m] d].
  intros [= <-]. unfold window_end, toordinal. simpl. tauto.
Qed.

(** X14: the window [check_for_openings] asks the scheduler for starts
    at the clock's time and ends 26 weeks (182 days) later to the day,
    at the same time of day, on a date of the calendar; both ends are
    sent in the scheduler's format. *)
Theorem requested_window_is_26_weeks net name code test_mode w :
  let start := (datetime_now net w).1 in
  Forall (fun r => exists finish,
            r = SlotsRequest code (strftime_ttp start) (strftime_ttp finish)
            /\ window_end start finish)
    (requested (trace (check_for_openings net name code test_mode w))).
Proof.
  intros start. subst start.
  unfold check_for_openings. rewrite run_bind. unfold now.
  destruct (datetime_now net w) as [start w1]. simpl fst.
  rewrite preceded_nil, run_lift_bind.
  destruct (add_weeks start DELTA) as [finish|] eqn:Hadd; [|apply Forall_nil_2].
  cbv beta iota zeta.
  match goal with
  | |- context [(?m ≫= ?f) w1] =>
      destruct (reads_first_bind net
                  (SlotsRequest code (strftime_ttp start) (strftime_ttp finish))
                  not_a_read m f) with (w := w1) as (a & rest & -> & Hrest)
  end.
  - by apply reads_first_guarded_get.
  - intros results. apply only_bind; [apply only_lift|]. intros l.
    by apply only_check_for_openings_loop.
  - destruct (no_reads_no_codes rest Hrest) as (_ & _ & Hreq).
    change (requested (EGet (SlotsRequest code (strftime_ttp start) (strftime_ttp finish))
                         a :: rest))
      with (SlotsRequest code (strftime_ttp start) (strftime_ttp finish) :: requested rest).
    rewrite Hreq. apply Forall_cons_2; [|apply Forall_nil_2].
    exists finish. split; [done|]. by apply add_weeks_window.
Qed.
